(** * pymed: the PubMed client of [pymed/api.py]

    A shallow embedding of the class [PubMed]: the rate limiter
    ([_exceededRateLimit]), the request helper ([_get]), the recursive
    id resolution over date windows ([_getArticleIds]), the record fetcher
    ([_getArticles]) and the public operations built from them.

    The client object lives in an explicit state: its attributes, a store of
    dict objects (so that [self.parameters.copy()] and the in-place update
    [parameters["retmode"] = output] keep their aliasing), the number of
    clock readings taken so far, the requests handed to the transport and
    the lines printed.  The outside world (the wall clock, the HTTP
    transport, the XML parser) is a parameter of the development. *)

From Stdlib Require Import ZArith List Lia Permutation Sorted DecimalString.
From stdpp Require Import gmap strings list.

Set Warnings "-register-all".

Local Open Scope string_scope.
Local Open Scope list_scope.
Local Open Scope Z_scope.

(** ** Python values, requests and responses *)

(** The values stored in a parameter dict: strings, ints and the list of
    article ids. *)
Inductive pyval : Type :=
| PStr (s : string)
| PInt (z : Z)
| PList (l : list string).

(** A reference to a dict object in the store. *)
Abbreviation ref := nat (only parsing).

(** What [requests.get(url, params=..., timeout=...)] is called with; the
    parameter dict is recorded as it is at the moment of the call. *)
Record Request : Type := mkRequest {
  req_url : string;
  req_params : gmap string pyval;
  req_timeout : Z
}.

(** The decoded body of a search response:
    [{"esearchresult": {"count": ..., "idlist": [...]}}].  A key that is
    absent is [None]; [count] holds the value of [int(...)] when the key is
    present. *)
Record ESearchResult : Type := mkESearchResult {
  count : option Z;
  idlist : option (list string)
}.

Record Json : Type := mkJson {
  esearchresult : option ESearchResult
}.

(** The response object, through what the client uses of it: the status
    the transport reports, with its reason phrase, [json()] (which raises on
    a body that is not JSON, [None]) and [text]. *)
Record Response : Type := mkResponse {
  status_code : Z;
  reason : string;
  json : option Json;
  text : string
}.

(** [response.raise_for_status()] of the requests library: it raises
    [HTTPError] for a status from 400 to 599 (client and server errors),
    [Some] of the reason here, and returns for every other status, the
    informational and redirection ones included. *)
Definition raise_for_status (response : Response) : option string :=
  if (400 <=? status_code response)%Z && (status_code response <? 600)%Z
  then Some (reason response)
  else None.

Inductive Exception : Type :=
| RequestException          (* raised by requests.get itself: timeout, no route *)
| HTTPError (reason : string)
| JSONDecodeError
| TypeError
| AttributeError
| ZeroDivisionError
| OverflowError
| ParseError.

(** What a call returns: a value, an exception, or a model that ran out of
    fuel, either in the admission loop of [_get] or in the recursion of
    [_getArticleIds]. *)
Inductive Outcome (A : Type) : Type :=
| Ok (a : A)
| Raised (e : Exception)
| StillWaiting
| OutOfFuel.

Arguments Ok {A} a.
Arguments Raised {A} e.
Arguments StillWaiting {A}.
Arguments OutOfFuel {A}.

(** [_get] returns the parsed JSON for [output == "json"] and the text
    otherwise. *)
Inductive Payload : Type :=
| JsonPayload (j : Json)
| TextPayload (t : string).

(** An argument of [print]. *)
Inductive parg : Type :=
| PS (s : string)
| PI (z : Z).

(** ** The client and its store *)

#[projections(primitive)]
Record State : Type := mkState {
  tool : string;
  email : string;
  _rateLimit : Z;
  _requestsMade : list Z;          (* timestamps, in microseconds *)
  parameters : ref;                (* self.parameters *)
  heap : list (gmap string pyval); (* the dict objects *)
  ticks : nat;                     (* readings of datetime.now() so far *)
  sent : list Request;             (* requests passed to requests.get *)
  stdout : list (list parg)
}.

Definition set_requestsMade (l : list Z) (s : State) : State :=
  mkState (tool s) (email s) (_rateLimit s) l (parameters s) (heap s)
          (ticks s) (sent s) (stdout s).

Definition set_heap (h : list (gmap string pyval)) (s : State) : State :=
  mkState (tool s) (email s) (_rateLimit s) (_requestsMade s) (parameters s) h
          (ticks s) (sent s) (stdout s).

Definition set_ticks (n : nat) (s : State) : State :=
  mkState (tool s) (email s) (_rateLimit s) (_requestsMade s) (parameters s)
          (heap s) n (sent s) (stdout s).

Definition set_sent (l : list Request) (s : State) : State :=
  mkState (tool s) (email s) (_rateLimit s) (_requestsMade s) (parameters s)
          (heap s) (ticks s) l (stdout s).

Definition set_stdout (l : list (list parg)) (s : State) : State :=
  mkState (tool s) (email s) (_rateLimit s) (_requestsMade s) (parameters s)
          (heap s) (ticks s) (sent s) l.

(** [PubMed.__init__]: the default parameter dict is the first object of
    the store. *)
Definition __init__ (tool email : string) : State :=
  mkState tool email 3 [] 0%nat
          [ <["tool" := PStr tool]> (<["email" := PStr email]> (<["db" := PStr "pubmed"]> ∅)) ]
          0 [] [].

(** ** A state and exception monad *)

Definition M (A : Type) : Type := State -> Outcome A * State.

Definition ret {A} (a : A) : M A := fun s => (Ok a, s).

Definition raise {A} (e : Exception) : M A := fun s => (Raised e, s).

Definition bind {A B} (m : M A) (k : A -> M B) : M B :=
  fun s =>
    match m s with
    | (Ok a, s') => k a s'
    | (Raised e, s') => (Raised e, s')
    | (StillWaiting, s') => (StillWaiting, s')
    | (OutOfFuel, s') => (OutOfFuel, s')
    end.

Notation "x <- c1 ;; c2" := (bind c1 (fun x => c2))
  (at level 100, c1 at next level, right associativity).
Notation "c1 ;;; c2" := (bind c1 (fun _ => c2))
  (at level 100, right associativity).

Definition get_state : M State := fun s => (Ok s, s).
Definition modify (f : State -> State) : M unit := fun s => (Ok tt, f s).

(** [d.copy()]: a new dict object with the same items. *)
Definition copy (r : ref) : M ref :=
  fun s =>
    match heap s !! r with
    | Some d => (Ok (length (heap s)), set_heap (heap s ++ [d]) s)
    | None => (Raised AttributeError, s)
    end.

(** [d[k] = v], in place. *)
Definition setitem (r : ref) (k : string) (v : pyval) : M unit :=
  fun s =>
    match heap s !! r with
    | Some d => (Ok tt, set_heap (<[r := <[k := v]> d]> (heap s)) s)
    | None => (Raised TypeError, s)
    end.

Definition print (line : list parg) : M unit :=
  modify (fun s => set_stdout (stdout s ++ [line]) s).

(** [str(z)] for an int. *)
Definition str (z : Z) : string := NilZero.string_of_int (Z.to_int z).

Definition BASE_URL : string := "https://eutils.ncbi.nlm.nih.gov".

(** [datetime.timedelta(seconds=1)], in microseconds. *)
Definition one_second : Z := 1000000.

(** ** XML payloads and records *)

(** An element of a parsed payload ([xml.etree.ElementTree.Element]). *)
Inductive Element : Type :=
| Elem (tag : string) (content : string) (children : list Element).

Definition tag_of (e : Element) : string :=
  match e with Elem t _ _ => t end.

(** [root.iter(tag)]: the element itself when its tag matches, then the
    matches below each child, children taken left to right. *)
Fixpoint iter (tag : string) (e : Element) {struct e} : list Element :=
  match e with
  | Elem t _ children =>
      (if String.eqb t tag then [e] else [])
      ++ (fix iter_children (l : list Element) : list Element :=
            match l with
            | [] => []
            | c :: l' => iter tag c ++ iter_children l'
            end) children
  end.

(** All elements of a payload in document order. *)
Fixpoint document_order (e : Element) {struct e} : list Element :=
  match e with
  | Elem _ _ children =>
      e :: (fix below (l : list Element) : list Element :=
              match l with
              | [] => []
              | c :: l' => document_order c ++ below l'
              end) children
  end.

(** The two record shapes.  The field extraction of [PubMedArticle] and
    [PubMedBookArticle] is outside this development: a record is the
    element it was built from, tagged with its shape. *)
Inductive Publication : Type :=
| PubMedArticle (xml_element : Element)
| PubMedBookArticle (xml_element : Element).

(** ** Date windows *)

Record Window : Type := mkWindow {
  min_year : Z; max_year : Z;
  min_month : Z; max_month : Z;
  min_day : Z; max_day : Z
}.

(** The defaults of [_getArticleIds]. *)
Definition default_window : Window := mkWindow 1000 3000 1 12 1 31.

(** [range(n)] *)
Definition range (n : Z) : list Z := map Z.of_nat (seq 0 (Z.to_nat n)).

(** [sorted(s)] for a set [s] given by its elements: ascending, each value
    once. *)
Fixpoint insert_sorted (x : Z) (l : list Z) : list Z :=
  match l with
  | [] => [x]
  | y :: l' =>
      if x <? y then x :: l
      else if x =? y then l
      else y :: insert_sorted x l'
  end.

Definition sorted_set (l : list Z) : list Z := fold_right insert_sorted [] l.

(** [a // b] on ints; Python's floor division is [Z.div]. *)
Definition floordiv (a b : Z) : M Z :=
  if b =? 0 then raise ZeroDivisionError else ret (a / b).

(** The true division [a / b] of two ints gives the double nearest to the
    quotient (ties to even) and raises [OverflowError] when that double
    would be 2^1024 or more, that is when the quotient is at least
    2^1024 - 2^970 in absolute value. *)
Definition float_limit : Z := 2 ^ 1024 - 2 ^ 970.

Definition float_overflow (a b : Z) : bool :=
  float_limit * Z.abs b <=? Z.abs a.

(** [isinstance(a / b, float)] on ints: in Python 3 the true division of two
    ints is a float whenever it returns. *)
Definition truediv_isinstance_float (a b : Z) : M bool :=
  if b =? 0 then raise ZeroDivisionError
  else if float_overflow a b then raise OverflowError
  else ret true.

(** [parameters["retmax"]] as [_getArticleIds] leaves it before the request
    and reads it after: 10000, lowered to [max_results] when that is
    smaller ([_get] writes the key ["retmode"] only). *)
Definition effective_retmax (max_results : Z) : Z :=
  if max_results <? 10000 then max_results else 10000.

(** [for x in l: acc = body(acc, x)] *)
Fixpoint for_each {A B} (body : B -> A -> M B) (l : list A) (acc : B) : M B :=
  match l with
  | [] => ret acc
  | x :: l' => acc' <- body acc x ;; for_each body l' acc'
  end.

(** The boundary-splitting scheme, written three times in the source (for
    years, months and days): [lo], [hi] are the bounds of the granularity
    being split and [sub lo' hi'] the arguments of the recursive call for
    the sub-range [lo'..hi']. *)
Definition split_range (recur : Window -> M (list string))
    (sub : Z -> Z -> Window) (lo hi batch_count : Z)
    (article_ids : list string) : M (list string) :=
  let gap := hi - lo in
  step <- floordiv gap batch_count ;;
  let boundaries := map (fun i => lo + step * i) (range batch_count) in
  article_ids <-
    for_each (fun acc i =>
                ids <- recur (sub (if i =? lo then i else i + 1) (i + step)) ;;
                ret (acc ++ ids))
             (sorted_set boundaries) article_ids ;;
  extra <- truediv_isinstance_float gap batch_count ;;
  if (extra : bool) then
    ids <- recur (sub hi hi) ;; ret (article_ids ++ ids)
  else ret article_ids.

(** [int(response.get("esearchresult", {}).get("count"))] *)
Definition total_of (response : Payload) : M Z :=
  match response with
  | JsonPayload j =>
      match esearchresult j with
      | Some r => match count r with
                  | Some c => ret c
                  | None => raise TypeError
                  end
      | None => raise TypeError
      end
  | TextPayload _ => raise AttributeError
  end.

(** [response.get("esearchresult", {}).get("idlist", [])] *)
Definition idlist_of (response : Payload) : M (list string) :=
  match response with
  | JsonPayload j =>
      match esearchresult j with
      | Some r => match idlist r with
                  | Some l => ret l
                  | None => ret []
                  end
      | None => ret []
      end
  | TextPayload _ => raise AttributeError
  end.

Definition date_string (y m d : Z) : string :=
  str y +:+ "/" +:+ str m +:+ "/" +:+ str d.

Definition window_line (w : Window) (label : string) (total : Z) : list parg :=
  [PS "Year range:"; PI (min_year w); PI (max_year w);
   PS "Month range:"; PI (min_month w); PI (max_month w);
   PS "Day range:"; PI (min_day w); PI (max_day w);
   PS label; PI total].

Definition print_window (w : Window) (label : string) (total : Z) : M unit :=
  print (window_line w label total).

(** Modelled from the spec: [helpers.batches], which is not among the
    sources.  The id list is split into consecutive batches of the given
    size, the last one being shorter when the size does not divide the
    length; an empty list has no batch.  The spec gives no meaning to a
    size of zero, for which the model yields no batch. *)
Fixpoint batches_from (fuel : nat) (l : list string) (n : nat)
    : list (list string) :=
  match fuel with
  | O => []
  | S fuel' =>
      match l with
      | [] => []
      | _ :: _ => take n l :: batches_from fuel' (drop n l) n
      end
  end.

Definition batches (l : list string) (n : nat) : list (list string) :=
  match n with
  | O => []
  | S _ => batches_from (length l) l n
  end.

Section Client.

(** The outside world: the [n]-th reading of [datetime.datetime.now()], in
    microseconds; the answer of the transport to the [n]-th request ([None]
    when [requests.get] itself raises); and [xml.fromstring] ([None] when
    the text is not well-formed). *)
Variable clock : nat -> Z.
Variable transport : nat -> Request -> option Response.
Variable fromstring : string -> option Element.

(** ** The rate limiter *)

Definition now : M Z :=
  fun s => (Ok (clock (ticks s)), set_ticks (S (ticks s)) s).

(** [[t for t in ts if t > datetime.datetime.now() - timedelta(seconds=1)]]:
    the clock is read once per element. *)
Fixpoint prune (ts : list Z) (n : nat) : list Z * nat :=
  match ts with
  | [] => ([], n)
  | requestTime :: rest =>
      let keep := requestTime >? clock n - one_second in
      let '(kept, n') := prune rest (S n) in
      (if keep then requestTime :: kept else kept, n')
  end.

Definition _exceededRateLimit : M bool :=
  fun s =>
    let '(kept, n) := prune (_requestsMade s) (ticks s) in
    let s' := set_ticks n (set_requestsMade kept s) in
    (Ok (Z.of_nat (length (_requestsMade s')) >? _rateLimit s'), s').

(** [while self._exceededRateLimit(): pass], at most [fuel] checks. *)
Fixpoint wait_admission (fuel : nat) : M unit :=
  match fuel with
  | O => fun s => (StillWaiting, s)
  | S fuel' =>
      exceeded <- _exceededRateLimit ;;
      if (exceeded : bool) then wait_admission fuel' else ret tt
  end.

(** [requests.get(url, params=parameters, timeout=timeout)] *)
Definition requests_get (url : string) (params : ref) (timeout : Z) : M Response :=
  fun s =>
    match heap s !! params with
    | None => (Raised TypeError, s)
    | Some d =>
        let request := mkRequest url d timeout in
        let s' := set_sent (sent s ++ [request]) s in
        match transport (length (sent s)) request with
        | Some response => (Ok response, s')
        | None => (Raised RequestException, s')
        end
    end.

Definition _get (spin : nat) (url : string) (params : ref) (output : string)
    (timeout : Z) : M Payload :=
  wait_admission spin ;;;
  setitem params "retmode" (PStr output) ;;;
  response <- requests_get (BASE_URL +:+ url) params timeout ;;
  match raise_for_status response with
  | Some reason => raise (HTTPError reason)
  | None =>
      t <- now ;;
      modify (fun s => set_requestsMade (_requestsMade s ++ [t]) s) ;;;
      if String.eqb output "json" then
        match json response with
        | Some j => ret (JsonPayload j)
        | None => raise JSONDecodeError
        end
      else ret (TextPayload (text response))
  end.

(** ** The record fetcher *)

(** The records of a payload in the order [_getArticles] yields them. *)
Definition records_of (root : Element) : list Publication :=
  map PubMedArticle (iter "PubmedArticle" root)
  ++ map PubMedBookArticle (iter "PubmedBookArticle" root).

(** [_getArticles] is a generator; the model gives the list of the values
    it yields when it is consumed to its end (the request is made when the
    first value is asked for). *)
Definition _getArticles (spin : nat) (article_ids : list string) (timeout : Z)
    : M (list Publication) :=
  s <- get_state ;;
  params <- copy (parameters s) ;;
  setitem params "id" (PList article_ids) ;;;
  response <- _get spin "/entrez/eutils/efetch.fcgi" params "xml" timeout ;;
  root <- match response with
          | TextPayload t =>
              match fromstring t with
              | Some root => ret root
              | None => raise ParseError
              end
          | JsonPayload _ => raise TypeError
          end ;;
  ret (records_of root).

(** ** The id resolution *)

Definition search_request (query : string) (max_results : Z) (w : Window)
    (params : ref) : M unit :=
  setitem params "term" (PStr query) ;;;
  setitem params "retmax" (PInt 10000) ;;;
  setitem params "mindate"
    (PStr (date_string (min_year w) (min_month w) (min_day w))) ;;;
  setitem params "maxdate"
    (PStr (date_string (max_year w) (max_month w) (max_day w))) ;;;
  if max_results <? 10000 then setitem params "retmax" (PInt max_results)
  else ret tt.

(** What [_getArticleIds] does with the response of its request: return
    the ids of the response, or split the window and recurse.  A recursive
    call passes the bounds it narrows and the bounds of the coarser
    granularities; the finer ones take their defaults again. *)
Definition after_search (recur : Window -> M (list string)) (max_results : Z)
    (w : Window) (response : Payload) : M (list string) :=
  let article_ids := [] in
  total_result_count <- total_of response ;;
  print_window w "Entries to retrieve:" total_result_count ;;;
  let retmax := effective_retmax max_results in
  if total_result_count >? retmax then
    q <- floordiv total_result_count retmax ;;
    let batch_count := q + 1 in
    if negb (min_year w =? max_year w) then
      split_range recur (fun lo hi => mkWindow lo hi 1 12 1 31)
        (min_year w) (max_year w) batch_count article_ids
    else if negb (min_month w =? min_month w) then
      split_range recur
        (fun lo hi => mkWindow (min_year w) (max_year w) lo hi 1 31)
        (min_month w) (max_month w) batch_count article_ids
    else if negb (min_day w =? min_day w) then
      split_range recur
        (fun lo hi => mkWindow (min_year w) (max_year w)
                               (min_month w) (max_month w) lo hi)
        (min_day w) (max_day w) batch_count article_ids
    else
      print_window w "Too many entries:" total_result_count ;;;
      ret article_ids
  else
    ids <- idlist_of response ;;
    ret (article_ids ++ ids).

(** [fuel] bounds the depth of the recursion, [spin] the number of
    admission checks of each request. *)
Fixpoint _getArticleIds (fuel spin : nat) (query : string)
    (max_results timeout : Z) (w : Window) {struct fuel} : M (list string) :=
  match fuel with
  | O => fun s => (OutOfFuel, s)
  | S fuel' =>
      s <- get_state ;;
      params <- copy (parameters s) ;;
      search_request query max_results w params ;;;
      response <- _get spin "/entrez/eutils/esearch.fcgi" params "json" timeout ;;
      after_search (_getArticleIds fuel' spin query max_results timeout)
        max_results w response
  end.

(** ** The public operations *)

(** [for batch in article_batches: yield list(self._getArticles(batch))],
    consumed to its end. *)
Definition fetch_batches (spin : nat) (article_batches : list (list string))
    (timeout : Z) : M (list (list Publication)) :=
  for_each (fun fetched batch =>
              articles <- _getArticles spin batch timeout ;;
              ret (fetched ++ [articles]))
           article_batches [].

(** [query] returns the chain of one generator per batch of 250 ids; the
    model gives the records of the chain consumed to its end. *)
Definition query (fuel spin : nat) (query : string) (max_results timeout : Z)
    : M (list Publication) :=
  article_ids <- _getArticleIds fuel spin query max_results timeout default_window ;;
  articles <- fetch_batches spin (batches article_ids 250) timeout ;;
  ret (concat articles).

Definition query_publication_ids (fuel spin : nat) (query : string)
    (max_results timeout : Z) : M (list string) :=
  _getArticleIds fuel spin query max_results timeout default_window.

Definition get_publications_from_ids (spin : nat) (article_ids : list string)
    (timeout : Z) : M (list Publication) :=
  articles <- fetch_batches spin (batches article_ids 250) timeout ;;
  ret (concat articles).

(** The loop of [batch_query] over an id list already resolved. *)
Definition batch_query_ids (spin : nat) (article_ids : list string)
    (batch_size : nat) (timeout : Z) : M (list (list Publication)) :=
  fetch_batches spin (batches article_ids batch_size) timeout.

Definition batch_query (fuel spin : nat) (query : string) (batch_size : nat)
    (timeout : Z) : M (list (list Publication)) :=
  article_ids <- _getArticleIds fuel spin query 10000000 timeout default_window ;;
  batch_query_ids spin article_ids batch_size timeout.

Definition getTotalResultsCount (spin : nat) (query : string) (timeout : Z)
    : M Z :=
  s <- get_state ;;
  params <- copy (parameters s) ;;
  setitem params "term" (PStr query) ;;;
  setitem params "retmax" (PInt 1) ;;;
  response <- _get spin "/entrez/eutils/esearch.fcgi" params "json" timeout ;;
  total_of response.

(** ** The states of a client *)


End Client.

(** The request that [_get] hands to the transport. *)
Definition request_of (url : string) (d : gmap string pyval) (output : string)
    (timeout : Z) : Request :=
  mkRequest (BASE_URL +:+ url) (<["retmode" := PStr output]> d) timeout.

Definition has_tag (tag : string) (e : Element) : bool :=
  String.eqb (tag_of e) tag.

(** The state after an admitted request: the request is on the trace and
    the store is [h]. *)
Definition requested (h : list (gmap string pyval)) (request : Request)
    (s : State) : State :=
  set_sent (sent s ++ [request]) (set_heap h s).

(** The time of the request is read and appended to the log. *)
Definition logged (clock : nat -> Z) (s : State) : State :=
  set_requestsMade (_requestsMade s ++ [clock (ticks s)])
    (set_ticks (S (ticks s)) s).

(** The parameter dict of a fetch and of a search, as sent. *)
Definition fetch_params (d : gmap string pyval) (article_ids : list string)
    : gmap string pyval :=
  <["id" := PList article_ids]> d.

Definition search_params (d : gmap string pyval) (query : string)
    (max_results : Z) (w : Window) : gmap string pyval :=
  let d4 :=
    <["maxdate" := PStr (date_string (max_year w) (max_month w) (max_day w))]>
      (<["mindate" := PStr (date_string (min_year w) (min_month w) (min_day w))]>
         (<["retmax" := PInt 10000]> (<["term" := PStr query]> d))) in
  if max_results <? 10000 then <["retmax" := PInt max_results]> d4 else d4.

Definition efetch : string := "/entrez/eutils/efetch.fcgi".
Definition esearch : string := "/entrez/eutils/esearch.fcgi".

(** ** Vocabulary of the statements *)

(** The call returned or raised: the model did not run out of fuel. *)
Definition finished {A} (o : Outcome A) : Prop :=
  match o with
  | Ok _ | Raised _ => True
  | StillWaiting | OutOfFuel => False
  end.

(** Every reading of the clock is later than the one before. *)
Definition advancing (clock : nat -> Z) : Prop :=
  forall n, clock n < clock (S n).

(** A client whose ceiling is not negative and whose logged timestamps are
    not ahead of the clock. *)
Definition good (clock : nat -> Z) (s : State) : Prop :=
  0 <= _rateLimit s /\ Forall (fun t => t <= clock (ticks s)) (_requestsMade s).

(** A call that, started on a good client, returns or raises and leaves a
    good client. *)
Definition terminating {A} (clock : nat -> Z) (m : M A) : Prop :=
  forall s, good clock s -> finished (fst (m s)) /\ good clock (snd (m s)).

(** The attributes of the client other than the timestamp log are the same
    in [s'] as in [s]. *)
Definition same_attributes (s s' : State) : Prop :=
  tool s' = tool s /\ email s' = email s /\ _rateLimit s' = _rateLimit s /\
  parameters s' = parameters s.

(** A call that leaves the attributes of the client other than the
    timestamp log as they were ([self.parameters] pointing where it did)
    and does not touch the first [n] dict objects of the store. *)
Definition preserves {A} (n : nat) (m : M A) : Prop :=
  forall s, (n <= length (heap s))%nat ->
    same_attributes s (snd (m s)) /\
    (n <= length (heap (snd (m s))))%nat /\
    forall l, (l < n)%nat -> heap (snd (m s)) !! l = heap s !! l.





(** The fetch endpoint returns the same records for the same ids: each id
    has its records, and the payload of a fetch holds exactly the records
    of the ids asked for, in some order. *)
Definition consistent_endpoint (transport : nat -> Request -> option Response)
    (fromstring : string -> option Element)
    (records_of_id : string -> list Publication) : Prop :=
  forall n request article_ids,
    req_url request = BASE_URL +:+ efetch ->
    req_params request !! "id" = Some (PList article_ids) ->
    exists response root,
      transport n request = Some response /\
      raise_for_status response = None /\
      fromstring (text response) = Some root /\
      Permutation (records_of root) (flat_map records_of_id article_ids).

(** The date bounds of the recursive calls of the loop of one split, in
    call order: one per boundary. *)
Definition loop_ranges (lo hi batch_count : Z) : list (Z * Z) :=
  let step := (hi - lo) / batch_count in
  map (fun i => (if i =? lo then i else i + 1, i + step))
      (sorted_set (map (fun i => lo + step * i) (range batch_count))).

(** The date bounds of the recursive calls of one split, in call order:
    those of the loop, then the call pinned to the upper bound. *)
Definition sub_ranges (lo hi batch_count : Z) : list (Z * Z) :=
  loop_ranges lo hi batch_count ++ [(hi, hi)].

(** The recursive calls a split gets to make: the call pinned to the upper
    bound is not reached when the quotient of the gap by the batch count
    overflows a float. *)
Definition made_ranges (lo hi batch_count : Z) : list (Z * Z) :=
  loop_ranges lo hi batch_count
  ++ (if float_overflow (hi - lo) batch_count then [] else [(hi, hi)]).

(** The year (month, day) [y] lies in one of the ranges of [l]. *)
Definition covered (y : Z) (l : list (Z * Z)) : Prop :=
  exists p, In p l /\ fst p <= y <= snd p.

(** The recursive call of a split for one range, as the loop makes it. *)
Definition call_range (recur : Window -> M (list string)) (sub : Z -> Z -> Window)
    (acc : list string) (p : Z * Z) : M (list string) :=
  ids <- recur (sub (fst p) (snd p)) ;; ret (acc ++ ids).

(** Whatever the number of the request, the transport answers [request]
    with a success that reports [total] matches and the id list [ids]. *)
Definition answers (transport : nat -> Request -> option Response)
    (request : Request) (total : Z) (ids : list string) : Prop :=
  forall n, exists response j r,
    transport n request = Some response /\
    raise_for_status response = None /\
    json response = Some j /\
    esearchresult j = Some r /\
    count r = Some total /\
    idlist r = Some ids.


(** ** Sample worlds *)

(** A clock that gains ten milliseconds from one reading to the next. *)
Definition ex_clock (n : nat) : Z := 10000 * Z.of_nat n.

(** A clock that gains a full second from one reading to the next. *)
Definition ex_slow_clock (n : nat) : Z := one_second * Z.of_nat n.

Definition ex_search_response (total : Z) (ids : list string) : Response :=
  mkResponse 200 "OK" (Some (mkJson (Some (mkESearchResult (Some total) (Some ids))))) "".

(** Is the request a search over the window [lo .. hi]? *)
Definition ex_is_window (r : Request) (lo hi : string) : bool :=
  match req_params r !! "mindate", req_params r !! "maxdate" with
  | Some (PStr a), Some (PStr b) => String.eqb a lo && String.eqb b hi
  | _, _ => false
  end.

(** A transport whose every answer is an error status. *)
Definition ex_failing (n : nat) (r : Request) : option Response :=
  Some (mkResponse 500 "500 Server Error" None "").

(** A transport whose every answer is a 304, a status that is neither a
    success nor an error. *)
Definition ex_not_modified (n : nat) (r : Request) : option Response :=
  Some (mkResponse 304 "Not Modified" None "").

(** A transport that reports the same total and ids for every search. *)
Definition ex_constant (total : Z) (ids : list string) (n : nat) (r : Request)
    : option Response :=
  Some (ex_search_response total ids).

Definition ex_no_xml (t : string) : option Element := None.

Definition ex_client : State := __init__ "my_tool" "my_email@example.com".

Definition ex_defaults : gmap string pyval :=
  <["tool" := PStr "my_tool"]>
    (<["email" := PStr "my_email@example.com"]> (<["db" := PStr "pubmed"]> ∅)).

(** The client after four searches in a row on the ten-millisecond clock. *)
Definition ex_after_four : State :=
  let get := _get ex_clock (ex_constant 1 ["7"]) 1 "/entrez/eutils/esearch.fcgi"
                  0%nat "json" 10 in
  snd (get (snd (get (snd (get (snd (get ex_client))))))).

(** A transport that reports [total] matches (and the ids 1 and 2) for a
    search over the default window, and one match (the id 7) for a search
    over any other window. *)
Definition ex_crowded_root (total : Z) (n : nat) (r : Request)
    : option Response :=
  Some (if ex_is_window r "1000/1/1" "3000/12/31"
        then ex_search_response total ["1"; "2"]
        else ex_search_response 1 ["7"]).

(** The windows of the searches on a trace. *)
Definition ex_windows (l : list Request) : list (option pyval * option pyval) :=
  map (fun r => (req_params r !! "mindate", req_params r !! "maxdate")) l.

Definition ex_year_2020 : Window := mkWindow 2020 2020 1 12 1 31.

(** A payload in which a book article comes before a journal article, and
    the endpoint and parser that deliver it. *)
Definition ex_mixed_payload : Element :=
  Elem "PubmedArticleSet" ""
       [Elem "PubmedBookArticle" "book" []; Elem "PubmedArticle" "article" []].

Definition ex_mixed_fetch (n : nat) (r : Request) : option Response :=
  Some (mkResponse 200 "OK" None "mixed").

Definition ex_mixed_parse (t : string) : option Element := Some ex_mixed_payload.

(** A fetch endpoint that holds one journal article for every character of
    an id: the text of its answer is the ids one after the other, and the
    parser makes an article of each character. *)
Definition ex_article (c : Ascii.ascii) : Element :=
  Elem "PubmedArticle" (String c EmptyString) [].

Fixpoint ex_join (l : list string) : string :=
  match l with
  | [] => EmptyString
  | x :: l' => x +:+ ex_join l'
  end.

Definition ex_fetch (n : nat) (r : Request) : option Response :=
  match req_params r !! "id" with
  | Some (PList ids) => Some (mkResponse 200 "OK" None (ex_join ids))
  | _ => Some (mkResponse 400 "400 Bad Request" None "")
  end.

Definition ex_parse (t : string) : option Element :=
  Some (Elem "PubmedArticleSet" "" (map ex_article (String.list_ascii_of_string t))).

Definition ex_records_of_id (id : string) : list Publication :=
  map (fun c => PubMedArticle (ex_article c)) (String.list_ascii_of_string id).

(** A client whose ceiling was set to [-1]. *)
Definition ex_blocked_client : State :=
  mkState "my_tool" "my_email@example.com" (-1) [] 0%nat [ex_defaults] 0 [] [].

(** A transport that never answers: [requests.get] raises. *)
Definition ex_unreachable (n : nat) (r : Request) : option Response := None.


(** A resolution that finds the id 7 in every window but those that start
    in 2001, whose search fails. *)
Definition ex_recur (w : Window) : M (list string) :=
  if min_year w =? 2001 then raise (HTTPError "502 Bad Gateway") else ret ["7"].

Definition ex_year_window (lo hi : Z) : Window := mkWindow lo hi 1 12 1 31.

(** A transport whose answers are successes without a JSON body. *)
Definition ex_not_json (n : nat) (r : Request) : option Response :=
  Some (mkResponse 200 "OK" None "<html/>").


(** * Properties *)

Section ClientFacts.

Variable clock : nat -> Z.
Variable transport : nat -> Request -> option Response.
Variable fromstring : string -> option Element.

(** ** The rate limiter *)

Lemma prune_ticks ts n : snd (prune clock ts n) = (n + length ts)%nat.
Proof.
  revert n. induction ts as [|t ts IH]; intros n; simpl.
  - lia.
  - specialize (IH (S n)). destruct (prune clock ts (S n)) as [kept n'].
    simpl in *. lia.
Qed.

Lemma prune_sublist ts n : sublist (fst (prune clock ts n)) ts.
Proof.
  revert n. induction ts as [|t ts IH]; intros n; simpl.
  - constructor.
  - specialize (IH (S n)). destruct (prune clock ts (S n)) as [kept n'].
    simpl in *. destruct (t >? clock n - one_second); simpl.
    + by apply sublist_skip.
    + by apply sublist_cons.
Qed.

Lemma prune_length ts n : (length (fst (prune clock ts n)) <= length ts)%nat.
Proof. apply sublist_length, prune_sublist. Qed.

(** What an admission check does to the client: the log is pruned, the
    clock has been read once per logged timestamp, nothing else moves. *)
Lemma _exceededRateLimit_run s :
  _exceededRateLimit clock s =
    (Ok (Z.of_nat (length (fst (prune clock (_requestsMade s) (ticks s))))
         >? _rateLimit s),
     set_ticks (ticks s + length (_requestsMade s))
       (set_requestsMade (fst (prune clock (_requestsMade s) (ticks s))) s)).
Proof.
  unfold _exceededRateLimit.
  pose proof (prune_ticks (_requestsMade s) (ticks s)) as Ht.
  destruct (prune clock (_requestsMade s) (ticks s)) as [kept n].
  simpl in *. by subst n.
Qed.

(** The admission loop touches the timestamp log and the clock only. *)
Lemma wait_admission_frame fuel s o s' :
  wait_admission clock fuel s = (o, s') ->
  s' = set_ticks (ticks s') (set_requestsMade (_requestsMade s') s).
Proof.
  revert s. induction fuel as [|fuel IH]; intros s; simpl.
  - intros [= <- <-]. reflexivity.
  - unfold bind. rewrite _exceededRateLimit_run.
    destruct (_ >? _).
    + intros H. apply IH in H. etransitivity; [exact H|reflexivity].
    + intros [= <- <-]. reflexivity.
Qed.

Lemma wait_admission_sublist fuel s o s' :
  wait_admission clock fuel s = (o, s') ->
  sublist (_requestsMade s') (_requestsMade s).
Proof.
  revert s. induction fuel as [|fuel IH]; intros s; simpl.
  - intros [= <- <-]. reflexivity.
  - unfold bind. rewrite _exceededRateLimit_run.
    destruct (_ >? _).
    + intros H. apply IH in H. simpl in H.
      etransitivity; [exact H|apply prune_sublist].
    + intros [= <- <-]. simpl. apply prune_sublist.
Qed.


(** [_get], step by step, once the admission loop has let the request
    through. *)
Lemma _get_run spin url r output timeout s s1 d :
  wait_admission clock spin s = (Ok tt, s1) ->
  heap s !! r = Some d ->
  _get clock transport spin url r output timeout s =
    let request := request_of url d output timeout in
    let s2 := set_sent (sent s ++ [request])
                (set_heap (<[r := req_params request]> (heap s)) s1) in
    match transport (length (sent s)) request with
    | None => (Raised RequestException, s2)
    | Some response =>
        match raise_for_status response with
        | Some reason => (Raised (HTTPError reason), s2)
        | None =>
            let s3 := set_requestsMade (_requestsMade s1 ++ [clock (ticks s1)])
                        (set_ticks (S (ticks s1)) s2) in
            if String.eqb output "json" then
              match json response with
              | Some j => (Ok (JsonPayload j), s3)
              | None => (Raised JSONDecodeError, s3)
              end
            else (Ok (TextPayload (text response)), s3)
        end
    end.
Proof.
  intros Hw Hd. unfold _get, bind at 1. rewrite Hw.
  pose proof (wait_admission_frame _ _ _ _ Hw) as Hs1.
  assert (heap s1 = heap s) as Hh by (rewrite Hs1; reflexivity).
  assert (sent s1 = sent s) as Hsent by (rewrite Hs1; reflexivity).
  unfold bind at 1, setitem. rewrite Hh, Hd.
  unfold bind at 1, requests_get. cbn [heap set_heap].
  rewrite list_lookup_insert_eq by (eapply lookup_lt_Some; eauto).
  cbn [sent set_heap]. rewrite Hsent. unfold request_of. cbn [req_params].
  destruct (transport _ _) as [response|]; [|reflexivity].
  destruct (raise_for_status response) as [reason|]; [reflexivity|].
  unfold bind, now, modify. cbn.
  destruct (String.eqb output "json"); [destruct (json response)|]; reflexivity.
Qed.


(** ** Admission ends when the clock advances *)

Lemma sublist_Forall {A} (P : A -> Prop) (l k : list A) :
  sublist l k -> Forall P k -> Forall P l.
Proof.
  induction 1 as [|x l k Hs IH|x l k Hs IH]; intros Hall.
  - constructor.
  - inversion Hall; subst. constructor; auto.
  - inversion Hall; subst. auto.
Qed.

Lemma advancing_le n m :
  advancing clock -> (n <= m)%nat -> clock n + Z.of_nat (m - n) <= clock m.
Proof.
  intros Hadv Hle. induction Hle as [|m Hle IH].
  - replace (n - n)%nat with 0%nat by lia. simpl. lia.
  - specialize (Hadv m). lia.
Qed.

Lemma advancing_mono n m :
  advancing clock -> (n <= m)%nat -> clock n <= clock m.
Proof. intros Hadv Hle. pose proof (advancing_le n m Hadv Hle). lia. Qed.

(** Timestamps a full second old are all dropped. *)
Lemma prune_old ts n :
  advancing clock ->
  Forall (fun t => t + one_second <= clock n) ts ->
  fst (prune clock ts n) = [].
Proof.
  intros Hadv. revert n. induction ts as [|t ts IH]; intros n Hall; simpl.
  - reflexivity.
  - inversion Hall as [|? ? Ht Hts]; subst.
    assert (fst (prune clock ts (S n)) = []) as Hrest.
    { apply IH. eapply Forall_impl; [exact Hts|].
      intros x Hx. simpl in Hx. specialize (Hadv n). lia. }
    destruct (prune clock ts (S n)) as [kept n']. simpl in *. subst kept.
    destruct (t >? clock n - one_second) eqn:E; [lia|reflexivity].
Qed.

(** What the pruning keeps is less than a second older than the moment
    the check began. *)
Lemma prune_recent ts n :
  advancing clock ->
  Forall (fun t => clock n - one_second < t) (fst (prune clock ts n)).
Proof.
  intros Hadv. revert n. induction ts as [|t ts IH]; intros n; simpl.
  - constructor.
  - specialize (IH (S n)). destruct (prune clock ts (S n)) as [kept n'].
    simpl in *.
    assert (Forall (fun t0 => clock n - one_second < t0) kept) as Hk.
    { eapply Forall_impl; [exact IH|]. intros x Hx. simpl in Hx.
      specialize (Hadv n). lia. }
    destruct (t >? clock n - one_second) eqn:E; simpl; [|exact Hk].
    constructor; [lia|exact Hk].
Qed.

Lemma wait_admission_ends k :
  advancing clock ->
  forall fuel s,
    0 <= _rateLimit s ->
    Forall (fun t => t + one_second <= clock (ticks s) + Z.of_nat k)
           (_requestsMade s) ->
    (k < fuel)%nat ->
    exists s', wait_admission clock fuel s = (Ok tt, s').
Proof.
  intros Hadv. induction k as [|k IH]; intros fuel s Hlim Hall Hfuel;
    (destruct fuel as [|fuel]; [lia|]); simpl; unfold bind;
    rewrite _exceededRateLimit_run;
    destruct (_ >? _) eqn:E; try (eexists; reflexivity).
  - apply Z.gtb_lt in E. rewrite prune_old in E; [cbn [length] in E; lia|exact Hadv|].
    eapply Forall_impl; [exact Hall|]. intros x Hx. simpl in Hx. lia.
  - apply IH; [exact Hlim| |lia]. simpl.
    pose proof (prune_length (_requestsMade s) (ticks s)) as Hlen.
    assert (1 <= length (_requestsMade s))%nat as Hne by lia.
    pose proof (advancing_le (ticks s) (ticks s + length (_requestsMade s))
                  Hadv ltac:(lia)) as Hclk.
    eapply Forall_impl.
    + eapply sublist_Forall; [apply prune_sublist|exact Hall].
    + intros x Hx. simpl in Hx. lia.
Qed.

Lemma wait_admission_ticks fuel s o s' :
  wait_admission clock fuel s = (o, s') -> (ticks s <= ticks s')%nat.
Proof.
  revert s. induction fuel as [|fuel IH]; intros s; simpl.
  - intros [= <- <-]. lia.
  - unfold bind. rewrite _exceededRateLimit_run.
    destruct (_ >? _).
    + intros H. apply IH in H. simpl in H. lia.
    + intros [= <- <-]. simpl. lia.
Qed.

Lemma wait_admission_good fuel s o s' :
  advancing clock ->
  wait_admission clock fuel s = (o, s') -> good clock s -> good clock s'.
Proof.
  intros Hadv Hw [Hlim Hpast].
  pose proof (wait_admission_frame _ _ _ _ Hw) as Hs'.
  pose proof (wait_admission_sublist _ _ _ _ Hw) as Hsub.
  pose proof (wait_admission_ticks _ _ _ _ Hw) as Ht.
  split.
  - rewrite Hs'. exact Hlim.
  - eapply Forall_impl; [eapply sublist_Forall; eauto|].
    intros x Hx. simpl in Hx.
    pose proof (advancing_mono _ _ Hadv Ht). lia.
Qed.

Lemma wait_admission_good_ends fuel s :
  advancing clock -> good clock s -> (Z.to_nat one_second < fuel)%nat ->
  exists s', wait_admission clock fuel s = (Ok tt, s').
Proof.
  intros Hadv [Hlim Hpast] Hfuel.
  apply (wait_admission_ends (Z.to_nat one_second)); auto.
  eapply Forall_impl; [exact Hpast|]. intros x Hx. simpl in Hx.
  rewrite Z2Nat.id by (unfold one_second; lia). lia.
Qed.

(** ** The request helper and the timestamp log *)

Lemma prune_keeps_young ts n t :
  advancing clock ->
  In t ts -> clock (n + length ts) - one_second < t ->
  In t (fst (prune clock ts n)).
Proof.
  intros Hadv. revert n. induction ts as [|x ts IH]; intros n Hin Hyoung;
    [destruct Hin|]. simpl in *.
  specialize (IH (S n)).
  replace (S n + length ts)%nat with (n + S (length ts))%nat in IH by lia.
  destruct (prune clock ts (S n)) as [kept n'] eqn:Hp. simpl in *.
  pose proof (advancing_mono n (n + S (length ts)) Hadv ltac:(lia)) as Hm.
  destruct Hin as [->|Hin].
  - destruct (t >? clock n - one_second) eqn:E; [by left|lia].
  - destruct (x >? clock n - one_second); [right|]; by apply IH.
Qed.

(** The wait loses no timestamp that is less than a second old when it
    ends. *)
Lemma wait_admission_keeps_young fuel t : forall s o s1,
  advancing clock ->
  wait_admission clock fuel s = (o, s1) ->
  In t (_requestsMade s) ->
  clock (ticks s1) - one_second < t ->
  In t (_requestsMade s1).
Proof.
  induction fuel as [|fuel IH]; intros s o s1 Hadv Hw Hin Hyoung; simpl in Hw.
  - injection Hw as <- <-. exact Hin.
  - unfold bind in Hw. rewrite _exceededRateLimit_run in Hw.
    destruct (_ >? _).
    + pose proof (wait_admission_ticks _ _ _ _ Hw) as Ht. cbn in Ht.
      pose proof (advancing_mono _ _ Hadv Ht) as Hm.
      eapply IH; [exact Hadv|exact Hw| |exact Hyoung].
      cbn. apply prune_keeps_young; [exact Hadv|exact Hin|lia].
    + injection Hw as <- <-. cbn in *. by apply prune_keeps_young.
Qed.




(** C7, as the code has it: when the transport reports a status from 400
    to 599, on which [raise_for_status] raises, [_get] raises [HTTPError] at
    once, having called the transport exactly once, and appends no
    timestamp; so it does when [requests.get] itself raises.  The log is
    then what the admission check before the request made of it: the
    timestamps it held, in their order, less the ones the check dropped,
    none of which was less than a second old at the end of the wait.  On
    every other status, the informational and redirection ones included,
    the request counts as made: its time is appended and [_get] goes on to
    the body. *)
Theorem get_error_not_logged spin url r output timeout s s1 d :
  wait_admission clock spin s = (Ok tt, s1) ->
  heap s !! r = Some d ->
  let result := _get clock transport spin url r output timeout s in
  sent (snd result) = sent s ++ [request_of url d output timeout] /\
  sublist (_requestsMade s1) (_requestsMade s) /\
  (advancing clock ->
   forall t, In t (_requestsMade s) -> clock (ticks s1) - one_second < t ->
             In t (_requestsMade s1)) /\
  match transport (length (sent s)) (request_of url d output timeout) with
  | None =>
      fst result = Raised RequestException /\
      _requestsMade (snd result) = _requestsMade s1
  | Some response =>
      if (400 <=? status_code response) && (status_code response <? 600) then
        fst result = Raised (HTTPError (reason response)) /\
        _requestsMade (snd result) = _requestsMade s1
      else
        _requestsMade (snd result) = _requestsMade s1 ++ [clock (ticks s1)] /\
        fst result =
          if String.eqb output "json" then
            match json response with
            | Some j => Ok (JsonPayload j)
            | None => Raised JSONDecodeError
            end
          else Ok (TextPayload (text response))
  end.
Proof.
  intros Hw Hd. cbn zeta. rewrite (_get_run _ _ _ _ _ _ _ _ Hw Hd).
  cbn zeta.
  split; [|split; [eapply wait_admission_sublist; eauto|split]].
  - destruct (transport _ _) as [response|]; [|reflexivity].
    destruct (raise_for_status response); [reflexivity|].
    destruct (String.eqb output "json"); [destruct (json response)|]; reflexivity.
  - intros Hadv t Hin Hyoung. by eapply wait_admission_keeps_young.
  - destruct (transport _ _) as [response|]; [|split; reflexivity].
    unfold raise_for_status.
    destruct ((400 <=? status_code response) && (status_code response <? 600));
      [split; reflexivity|].
    destruct (String.eqb output "json"); [destruct (json response)|];
      split; reflexivity.
Qed.

(** ** Running a call up to its request *)

Lemma wait_admission_set_heap fuel h s :
  wait_admission clock fuel (set_heap h s) =
    (fst (wait_admission clock fuel s),
     set_heap h (snd (wait_admission clock fuel s))).
Proof.
  revert s. induction fuel as [|fuel IH]; intros s; simpl.
  - reflexivity.
  - unfold bind. rewrite !_exceededRateLimit_run. cbn.
    destruct (_ >? _).
    + apply (IH (set_ticks _ (set_requestsMade _ s))).
    + reflexivity.
Qed.

Lemma copy_run s d :
  heap s !! parameters s = Some d ->
  copy (parameters s) s = (Ok (length (heap s)), set_heap (heap s ++ [d]) s).
Proof. intros H. unfold copy. by rewrite H. Qed.

Lemma insert_last {A} (h : list A) (x y : A) :
  <[length h := y]> (h ++ [x]) = h ++ [y].
Proof.
  rewrite insert_app_r_alt by lia. by rewrite Nat.sub_diag.
Qed.

Lemma setitem_last h d k v s :
  setitem (length h) k v (set_heap (h ++ [d]) s)
  = (Ok tt, set_heap (h ++ [<[k := v]> d]) s).
Proof.
  unfold setitem. cbn [heap set_heap].
  rewrite list_lookup_middle by reflexivity.
  by rewrite insert_last.
Qed.

(** [_get] on the dict that was last allocated. *)
Lemma _get_last spin url output timeout h d s s1 :
  wait_admission clock spin s = (Ok tt, s1) ->
  _get clock transport spin url (length h) output timeout (set_heap (h ++ [d]) s) =
    let request := request_of url d output timeout in
    let s2 := requested (h ++ [req_params request]) request s1 in
    match transport (length (sent s)) request with
    | None => (Raised RequestException, s2)
    | Some response =>
        match raise_for_status response with
        | Some reason => (Raised (HTTPError reason), s2)
        | None =>
            if String.eqb output "json" then
              match json response with
              | Some j => (Ok (JsonPayload j), logged clock s2)
              | None => (Raised JSONDecodeError, logged clock s2)
              end
            else (Ok (TextPayload (text response)), logged clock s2)
        end
    end.
Proof.
  intros Hw.
  pose proof (wait_admission_set_heap spin (h ++ [d]) s) as Hw'.
  rewrite Hw in Hw'. cbn [fst snd] in Hw'.
  rewrite (_get_run _ _ _ _ _ _ _ d Hw')
    by (cbn [heap set_heap]; by rewrite list_lookup_middle).
  pose proof (wait_admission_frame _ _ _ _ Hw) as Hs1.
  assert (sent s1 = sent s) as Hsent by (rewrite Hs1; reflexivity).
  cbn zeta. cbn [heap sent set_heap].
  rewrite insert_last.
  unfold requested, logged. cbn. rewrite Hsent. reflexivity.
Qed.

Lemma _get_last_waiting spin url output timeout h d s s1 :
  wait_admission clock spin s = (StillWaiting, s1) ->
  _get clock transport spin url (length h) output timeout (set_heap (h ++ [d]) s)
  = (StillWaiting, set_heap (h ++ [d]) s1).
Proof.
  intros Hw.
  pose proof (wait_admission_set_heap spin (h ++ [d]) s) as Hw'.
  rewrite Hw in Hw'. cbn [fst snd] in Hw'.
  unfold _get, bind at 1. by rewrite Hw'.
Qed.


(** ** The record fetcher *)

Lemma iter_document_order tag :
  forall e, iter tag e = List.filter (has_tag tag) (document_order e).
Proof.
  fix IH 1. intros [t c children]. cbn [iter document_order List.filter].
  unfold has_tag at 1. cbn [tag_of].
  assert ((fix iter_children (l : list Element) : list Element :=
             match l with
             | [] => []
             | c0 :: l' => iter tag c0 ++ iter_children l'
             end) children
          = List.filter (has_tag tag)
              ((fix below (l : list Element) : list Element :=
                  match l with
                  | [] => []
                  | c0 :: l' => document_order c0 ++ below l'
                  end) children)) as ->.
  { induction children as [|c0 l IHl]; [reflexivity|].
    rewrite List.filter_app, <- IH, <- IHl. reflexivity. }
  destruct (String.eqb t tag); reflexivity.
Qed.

Lemma _getArticles_run spin article_ids timeout s s1 d :
  heap s !! parameters s = Some d ->
  wait_admission clock spin s = (Ok tt, s1) ->
  _getArticles clock transport fromstring spin article_ids timeout s =
    let request := request_of efetch (fetch_params d article_ids) "xml" timeout in
    let s2 := requested (heap s ++ [req_params request]) request s1 in
    match transport (length (sent s)) request with
    | None => (Raised RequestException, s2)
    | Some response =>
        match raise_for_status response with
        | Some reason => (Raised (HTTPError reason), s2)
        | None =>
            match fromstring (text response) with
            | Some root => (Ok (records_of root), logged clock s2)
            | None => (Raised ParseError, logged clock s2)
            end
        end
    end.
Proof.
  intros Hd Hw. unfold _getArticles, bind at 1, get_state.
  unfold bind at 1. rewrite (copy_run _ _ Hd).
  unfold bind at 1. rewrite setitem_last.
  unfold bind at 1. rewrite (_get_last _ _ _ _ _ _ _ _ Hw).
  cbn zeta. fold efetch. unfold fetch_params.
  destruct (transport _ _) as [response|]; [|reflexivity].
  destruct (raise_for_status response); [reflexivity|].
  cbn [String.eqb Ascii.eqb Bool.eqb].
  unfold bind. destruct (fromstring (text response)); reflexivity.
Qed.

(** C10: the records [_getArticles] yields are the journal articles of the
    payload in document order followed, as a second pass, by its book
    articles in document order. *)
Theorem getArticles_order spin article_ids timeout s s1 d response root :
  heap s !! parameters s = Some d ->
  wait_admission clock spin s = (Ok tt, s1) ->
  transport (length (sent s))
    (request_of efetch (fetch_params d article_ids) "xml" timeout) = Some response ->
  raise_for_status response = None ->
  fromstring (text response) = Some root ->
  fst (_getArticles clock transport fromstring spin article_ids timeout s) =
    Ok (map PubMedArticle
          (List.filter (has_tag "PubmedArticle") (document_order root))
        ++ map PubMedBookArticle
             (List.filter (has_tag "PubmedBookArticle") (document_order root))).
Proof.
  intros Hd Hw Ht Hok Hroot.
  rewrite (_getArticles_run _ _ _ _ _ _ Hd Hw). cbn zeta.
  rewrite Ht, Hok, Hroot. cbn [fst]. unfold records_of.
  by rewrite !iter_document_order.
Qed.

(** ** The id resolution *)

Lemma search_request_last query max_results w h d s :
  search_request query max_results w (length h) (set_heap (h ++ [d]) s)
  = (Ok tt, set_heap (h ++ [search_params d query max_results w]) s).
Proof.
  unfold search_request, search_params.
  do 4 (unfold bind at 1; rewrite setitem_last).
  destruct (max_results <? 10000).
  - apply setitem_last.
  - reflexivity.
Qed.

(** The dict of a search holds the effective retmax under ["retmax"]. *)
Lemma search_params_retmax d query max_results w output :
  <["retmode" := PStr output]> (search_params d query max_results w) !! "retmax"
  = Some (PInt (effective_retmax max_results)).
Proof.
  unfold search_params, effective_retmax.
  rewrite lookup_insert_ne by discriminate.
  destruct (max_results <? 10000).
  - apply lookup_insert_eq.
  - do 2 (rewrite lookup_insert_ne by discriminate). apply lookup_insert_eq.
Qed.

(** One level of [_getArticleIds], up to the response of its request. *)
Lemma _getArticleIds_run fuel spin query max_results timeout w s s1 d :
  heap s !! parameters s = Some d ->
  wait_admission clock spin s = (Ok tt, s1) ->
  _getArticleIds clock transport (S fuel) spin query max_results timeout w s =
    let request :=
      request_of esearch (search_params d query max_results w) "json" timeout in
    let s2 := requested (heap s ++ [req_params request]) request s1 in
    match transport (length (sent s)) request with
    | None => (Raised RequestException, s2)
    | Some response =>
        match raise_for_status response with
        | Some reason => (Raised (HTTPError reason), s2)
        | None =>
            match json response with
            | Some j =>
                after_search
                  (_getArticleIds clock transport fuel spin query max_results timeout)
                  max_results w (JsonPayload j) (logged clock s2)
            | None => (Raised JSONDecodeError, logged clock s2)
            end
        end
    end.
Proof.
  intros Hd Hw. cbn [_getArticleIds]. unfold bind at 1, get_state.
  unfold bind at 1. rewrite (copy_run _ _ Hd).
  unfold bind at 1. rewrite search_request_last.
  unfold bind at 1. rewrite (_get_last _ _ _ _ _ _ _ _ Hw).
  cbn zeta. fold esearch.
  destruct (transport _ _) as [response|]; [|reflexivity].
  destruct (raise_for_status response); [reflexivity|].
  cbn [String.eqb Ascii.eqb Bool.eqb].
  destruct (json response); reflexivity.
Qed.

Lemma _getArticleIds_waiting fuel spin query max_results timeout w s s1 d :
  heap s !! parameters s = Some d ->
  wait_admission clock spin s = (StillWaiting, s1) ->
  fst (_getArticleIds clock transport (S fuel) spin query max_results timeout w s)
  = StillWaiting.
Proof.
  intros Hd Hw. cbn [_getArticleIds]. unfold bind at 1, get_state.
  unfold bind at 1. rewrite (copy_run _ _ Hd).
  unfold bind at 1. rewrite search_request_last.
  unfold bind at 1. by rewrite (_get_last_waiting _ _ _ _ _ _ _ _ Hw).
Qed.

Lemma after_search_return recur max_results w j r total s :
  esearchresult j = Some r ->
  count r = Some total ->
  total <= effective_retmax max_results ->
  after_search recur max_results w (JsonPayload j) s =
    (Ok (default [] (idlist r)),
     set_stdout (stdout s ++ [window_line w "Entries to retrieve:" total]) s).
Proof.
  intros Hr Hc Hle.
  unfold after_search, bind at 1, total_of. rewrite Hr, Hc.
  unfold ret at 1. unfold bind at 1, print_window, print, modify.
  destruct (total >? effective_retmax max_results) eqn:E; [lia|].
  unfold bind, idlist_of. rewrite Hr.
  destruct (idlist r); reflexivity.
Qed.

Lemma after_search_single_year recur max_results w j r total s :
  esearchresult j = Some r ->
  count r = Some total ->
  min_year w = max_year w ->
  effective_retmax max_results < total ->
  after_search recur max_results w (JsonPayload j) s =
    let s' := set_stdout (stdout s ++ [window_line w "Entries to retrieve:" total]) s in
    if effective_retmax max_results =? 0 then (Raised ZeroDivisionError, s')
    else (Ok [],
          set_stdout (stdout s' ++ [window_line w "Too many entries:" total]) s').
Proof.
  intros Hr Hc Hyear Hgt.
  unfold after_search, bind at 1, total_of. rewrite Hr, Hc.
  unfold ret at 1. unfold bind at 1, print_window, print, modify.
  destruct (total >? effective_retmax max_results) eqn:E; [|lia].
  unfold bind at 1, floordiv. cbn zeta.
  destruct (effective_retmax max_results =? 0) eqn:E0; [reflexivity|].
  unfold ret at 1. rewrite Hyear, !Z.eqb_refl. cbn [negb].
  reflexivity.
Qed.

(** C2, as the code has it: when the total the server reports is at most
    the effective retmax (the smaller of [max_results] and 10000),
    [_getArticleIds] makes exactly one search call and returns the id list
    of that response as it is. *)
Theorem single_call_within_retmax fuel spin query max_results timeout w s s1 d
    response j r total :
  heap s !! parameters s = Some d ->
  wait_admission clock spin s = (Ok tt, s1) ->
  transport (length (sent s))
    (request_of esearch (search_params d query max_results w) "json" timeout)
    = Some response ->
  raise_for_status response = None ->
  json response = Some j ->
  esearchresult j = Some r ->
  count r = Some total ->
  total <= effective_retmax max_results ->
  let result :=
    _getArticleIds clock transport (S fuel) spin query max_results timeout w s in
  fst result = Ok (default [] (idlist r)) /\
  sent (snd result) =
    sent s ++ [request_of esearch (search_params d query max_results w) "json" timeout].
Proof.
  intros Hd Hw Ht Hok Hj Hr Hc Hle. cbn zeta.
  rewrite (_getArticleIds_run _ _ _ _ _ _ _ _ _ Hd Hw). cbn zeta.
  rewrite Ht, Hok, Hj, (after_search_return _ _ _ _ _ _ _ Hr Hc Hle).
  pose proof (wait_admission_frame _ _ _ _ Hw) as Hs1.
  split; [reflexivity|]. cbn. rewrite Hs1. reflexivity.
Qed.

(** C4, as the code has it: for a window of a single year whose reported
    total exceeds an effective retmax other than zero, [_getArticleIds]
    returns the empty list after its one search call, whatever the months
    and days of the window. *)
Theorem single_year_over_retmax_empty fuel spin query max_results timeout w s s1 d
    response j r total :
  heap s !! parameters s = Some d ->
  wait_admission clock spin s = (Ok tt, s1) ->
  transport (length (sent s))
    (request_of esearch (search_params d query max_results w) "json" timeout)
    = Some response ->
  raise_for_status response = None ->
  json response = Some j ->
  esearchresult j = Some r ->
  count r = Some total ->
  min_year w = max_year w ->
  effective_retmax max_results < total ->
  effective_retmax max_results <> 0 ->
  let result :=
    _getArticleIds clock transport (S fuel) spin query max_results timeout w s in
  fst result = Ok [] /\
  sent (snd result) =
    sent s ++ [request_of esearch (search_params d query max_results w) "json" timeout].
Proof.
  intros Hd Hw Ht Hok Hj Hr Hc Hyear Hgt Hnz. cbn zeta.
  rewrite (_getArticleIds_run _ _ _ _ _ _ _ _ _ Hd Hw). cbn zeta.
  rewrite Ht, Hok, Hj, (after_search_single_year _ _ _ _ _ _ _ Hr Hc Hyear Hgt).
  cbn zeta. destruct (effective_retmax max_results =? 0) eqn:E0; [lia|].
  pose proof (wait_admission_frame _ _ _ _ Hw) as Hs1.
  split; [reflexivity|]. cbn. rewrite Hs1. reflexivity.
Qed.

(** ** The calls of a split *)

Lemma for_each_app {A B} (body : B -> A -> M B) l1 l2 acc s :
  for_each body (l1 ++ l2) acc s
  = bind (for_each body l1 acc) (fun acc' => for_each body l2 acc') s.
Proof.
  revert acc s. induction l1 as [|x l1 IH]; intros acc s; simpl.
  - reflexivity.
  - unfold bind. destruct (body acc x s) as [[a|e| |] s']; try reflexivity.
    rewrite IH. reflexivity.
Qed.

Lemma for_each_map {A B C} (body : B -> A -> M B) (f : C -> A) l acc s :
  for_each body (map f l) acc s = for_each (fun a x => body a (f x)) l acc s.
Proof.
  revert acc s. induction l as [|x l IH]; intros acc s; simpl.
  - reflexivity.
  - unfold bind. destruct (body acc (f x) s) as [[a|e| |] s']; try reflexivity.
    apply IH.
Qed.

(** A split recurses over [made_ranges], in that order, adding the ids of
    each call to the ones it has; it then raises if the quotient overflowed
    and returns the ids otherwise. *)
Lemma split_range_made recur sub lo hi batch_count article_ids s :
  batch_count <> 0 ->
  split_range recur sub lo hi batch_count article_ids s =
    (gathered <-
       for_each (fun acc p => ids <- recur (sub (fst p) (snd p)) ;; ret (acc ++ ids))
                (made_ranges lo hi batch_count) article_ids ;;
     if float_overflow (hi - lo) batch_count then raise OverflowError
     else ret gathered) s.
Proof.
  intros Hbc. unfold split_range, made_ranges, loop_ranges, floordiv,
    truediv_isinstance_float.
  apply Z.eqb_neq in Hbc. rewrite Hbc.
  unfold bind. unfold ret at 1. cbn beta iota.
  rewrite for_each_app. unfold bind. rewrite for_each_map. cbn [fst snd].
  destruct (for_each _ _ _ s) as [[a|e| |] s']; try reflexivity.
  destruct (float_overflow (hi - lo) batch_count); cbn [for_each].
  - reflexivity.
  - unfold bind, ret. cbn [fst snd].
    destruct (recur (sub hi hi) s') as [[ids|e| |] s'']; reflexivity.
Qed.

(** When the quotient fits a float, a split recurses over [sub_ranges]. *)
Lemma split_range_calls recur sub lo hi batch_count article_ids s :
  batch_count <> 0 ->
  float_overflow (hi - lo) batch_count = false ->
  split_range recur sub lo hi batch_count article_ids s =
    for_each (fun acc p => ids <- recur (sub (fst p) (snd p)) ;; ret (acc ++ ids))
             (sub_ranges lo hi batch_count) article_ids s.
Proof.
  intros Hbc Hfit. rewrite split_range_made by exact Hbc.
  unfold made_ranges, sub_ranges. rewrite Hfit. unfold bind.
  destruct (for_each _ _ _ s) as [[a|e| |] s']; reflexivity.
Qed.

(** When the quotient overflows a float, a split makes the calls of its
    loop and raises: the ids gathered are not returned and the upper bound
    is not searched on its own. *)
Lemma split_range_overflow recur sub lo hi batch_count article_ids s :
  batch_count <> 0 ->
  float_overflow (hi - lo) batch_count = true ->
  split_range recur sub lo hi batch_count article_ids s =
    (_ <- for_each (fun acc p => ids <- recur (sub (fst p) (snd p)) ;; ret (acc ++ ids))
                   (loop_ranges lo hi batch_count) article_ids ;;
     raise OverflowError) s.
Proof.
  intros Hbc Hover. rewrite split_range_made by exact Hbc.
  unfold made_ranges. rewrite Hover, app_nil_r. reflexivity.
Qed.

Lemma In_made_ranges p lo hi batch_count :
  In p (made_ranges lo hi batch_count) -> In p (sub_ranges lo hi batch_count).
Proof.
  unfold made_ranges, sub_ranges. rewrite !in_app_iff.
  destruct (float_overflow _ _); [|tauto]. intros [H|[]]. by left.
Qed.

Lemma In_insert_sorted x y l : In x (insert_sorted y l) -> x = y \/ In x l.
Proof.
  induction l as [|z l IH]; simpl.
  - intros [->|[]]. by left.
  - destruct (y <? z); [|destruct (y =? z)]; simpl.
    + intros [->|[->|H]]; auto.
    + intros [->|H]; auto.
    + intros [->|H]; auto. destruct (IH H); auto.
Qed.

Lemma In_sorted_set x l : In x (sorted_set l) -> In x l.
Proof.
  induction l as [|y l IH]; simpl; [tauto|].
  intros H. apply In_insert_sorted in H as [->|H]; auto.
Qed.

Lemma In_range j n : In j (range n) -> 0 <= j < n.
Proof.
  unfold range. rewrite in_map_iff. intros (k & <- & Hk).
  apply in_seq in Hk. lia.
Qed.

(** Every call of a split of a range of at least two values into at least
    two batches stays inside the range and is strictly narrower. *)
Lemma sub_ranges_narrow lo hi batch_count lo' hi' :
  lo < hi -> 2 <= batch_count ->
  In (lo', hi') (sub_ranges lo hi batch_count) ->
  lo <= lo' /\ lo' <= hi' /\ hi' <= hi /\ hi' - lo' < hi - lo.
Proof.
  intros Hlt Hbc. unfold sub_ranges, loop_ranges. cbn zeta.
  set (step := (hi - lo) / batch_count).
  assert (0 <= step) as Hstep0 by (apply Z.div_pos; lia).
  assert (batch_count * step <= hi - lo) as Hstep
    by (apply Z.mul_div_le; lia).
  rewrite in_app_iff, in_map_iff.
  intros [(i & Hp & Hi)|[Hp|[]]].
  - apply In_sorted_set in Hi. rewrite in_map_iff in Hi.
    destruct Hi as (j & <- & Hj). apply In_range in Hj.
    assert (step * (j + 1) <= batch_count * step) as Hj1 by nia.
    destruct (lo + step * j =? lo) eqn:E; injection Hp as <- <-.
    + nia.
    + apply Z.eqb_neq in E. assert (1 <= step) by nia. nia.
  - injection Hp as <- <-. lia.
Qed.

(** ** Termination *)

Section Termination.

Hypothesis clock_advances : advancing clock.

Lemma terminating_ret {A} (a : A) : terminating clock (ret a).
Proof. intros s Hs. by split. Qed.

Lemma terminating_raise {A} e : terminating clock (@raise A e).
Proof. intros s Hs. by split. Qed.

Lemma terminating_bind {A B} (m : M A) (k : A -> M B) :
  terminating clock m -> (forall a, terminating clock (k a)) ->
  terminating clock (bind m k).
Proof.
  intros Hm Hk s Hs. unfold bind. specialize (Hm s Hs).
  destruct (m s) as [[a|e| |] s']; cbn [fst snd] in *; try tauto.
  apply Hk, Hm.
Qed.

Lemma terminating_ext {A} (m m' : M A) :
  (forall s, m s = m' s) -> terminating clock m' -> terminating clock m.
Proof. intros Heq Hm s Hs. rewrite Heq. by apply Hm. Qed.

Lemma terminating_get_state : terminating clock get_state.
Proof. intros s Hs. by split. Qed.

Lemma terminating_copy r : terminating clock (copy r).
Proof. intros s Hs. unfold copy. destruct (heap s !! r); by split. Qed.

Lemma terminating_setitem r k v : terminating clock (setitem r k v).
Proof. intros s Hs. unfold setitem. destruct (heap s !! r); by split. Qed.

Lemma terminating_print line : terminating clock (print line).
Proof. intros s Hs. by split. Qed.

Lemma terminating_floordiv a b : terminating clock (floordiv a b).
Proof. intros s Hs. unfold floordiv. destruct (b =? 0); by split. Qed.

Lemma terminating_total_of response : terminating clock (total_of response).
Proof.
  intros s Hs. unfold total_of.
  destruct response as [j|t]; [|by split].
  destruct (esearchresult j) as [r|]; [|by split].
  destruct (count r); by split.
Qed.

Lemma terminating_idlist_of response : terminating clock (idlist_of response).
Proof.
  intros s Hs. unfold idlist_of.
  destruct response as [j|t]; [|by split].
  destruct (esearchresult j) as [r|]; [|by split].
  destruct (idlist r); by split.
Qed.

Lemma terminating_for_each {A B} (body : B -> A -> M B) l :
  (forall acc x, In x l -> terminating clock (body acc x)) ->
  forall acc, terminating clock (for_each body l acc).
Proof.
  induction l as [|x l IH]; intros Hbody acc; simpl.
  - apply terminating_ret.
  - apply terminating_bind.
    + apply Hbody. by left.
    + intros acc'. apply IH. intros a y Hy. apply Hbody. by right.
Qed.

Lemma terminating_wait_admission spin :
  (Z.to_nat one_second < spin)%nat ->
  terminating clock (wait_admission clock spin).
Proof.
  intros Hspin s Hs.
  destruct (wait_admission_good_ends spin s clock_advances Hs Hspin) as [s' Hw].
  rewrite Hw. split; [exact I|].
  eapply wait_admission_good; eauto.
Qed.

Lemma terminating_requests_get url r timeout :
  terminating clock (requests_get transport url r timeout).
Proof.
  intros s Hs. unfold requests_get.
  destruct (heap s !! r); [|by split].
  destruct (transport _ _); by split.
Qed.

Lemma terminating_get spin url r output timeout :
  (Z.to_nat one_second < spin)%nat ->
  terminating clock (_get clock transport spin url r output timeout).
Proof.
  intros Hspin. unfold _get.
  apply terminating_bind; [by apply terminating_wait_admission|intros _].
  apply terminating_bind; [apply terminating_setitem|intros _].
  apply terminating_bind; [apply terminating_requests_get|intros response].
  destruct (raise_for_status response); [apply terminating_raise|].
  intros s [Hlim Hpast]. unfold bind, now, modify.
  assert (good clock
            (set_requestsMade (_requestsMade s ++ [clock (ticks s)])
               (set_ticks (S (ticks s)) s))) as Hgood.
  { split; [exact Hlim|]. cbn. apply Forall_app. split.
    - eapply Forall_impl; [exact Hpast|]. intros x Hx. simpl in Hx.
      specialize (clock_advances (ticks s)). lia.
    - constructor; [|constructor]. specialize (clock_advances (ticks s)). lia. }
  destruct (String.eqb output "json"); [destruct (json response)|]; by split.
Qed.

Lemma terminating_search_request query max_results w r :
  terminating clock (search_request query max_results w r).
Proof.
  unfold search_request.
  do 4 (apply terminating_bind; [apply terminating_setitem|intros _]).
  destruct (max_results <? 10000);
    [apply terminating_setitem|apply terminating_ret].
Qed.

Lemma batch_count_ge_2 total retmax :
  1 <= retmax -> retmax < total -> 2 <= total / retmax + 1.
Proof.
  intros H1 H2. assert (1 <= total / retmax); [|lia].
  apply Z.div_le_lower_bound; lia.
Qed.

Lemma terminating_after_search recur max_results w response :
  1 <= effective_retmax max_results ->
  min_year w <= max_year w ->
  (forall w', 0 <= max_year w' - min_year w' < max_year w - min_year w ->
              terminating clock (recur w')) ->
  terminating clock (after_search recur max_results w response).
Proof.
  intros Hretmax Hle Hrecur. unfold after_search.
  apply terminating_bind; [apply terminating_total_of|intros total].
  apply terminating_bind; [apply terminating_print|intros _].
  destruct (total >? effective_retmax max_results) eqn:E.
  - assert ((effective_retmax max_results =? 0) = false) as E0 by lia.
    unfold floordiv. rewrite E0.
    apply (terminating_ext _
             (if negb (min_year w =? max_year w)
              then split_range recur (fun lo hi => mkWindow lo hi 1 12 1 31)
                     (min_year w) (max_year w)
                     (total / effective_retmax max_results + 1) []
              else print_window w "Too many entries:" total ;;; ret []));
      [intros s; unfold bind at 1, ret at 1; by rewrite !Z.eqb_refl|].
    pose proof (batch_count_ge_2 total (effective_retmax max_results)
                  Hretmax ltac:(lia)) as Hbc.
    destruct (min_year w =? max_year w) eqn:Ey; cbn [negb].
    + apply terminating_bind; [apply terminating_print|intros _].
      apply terminating_ret.
    + eapply terminating_ext; [intros s; apply split_range_made; lia|].
      apply terminating_bind.
      * apply terminating_for_each. intros acc [lo' hi'] Hin.
        apply terminating_bind; [|intros ids; apply terminating_ret].
        apply Hrecur. cbn [fst snd min_year max_year].
        apply In_made_ranges, sub_ranges_narrow in Hin; lia.
      * intros gathered.
        destruct (float_overflow _ _);
          [apply terminating_raise|apply terminating_ret].
  - apply terminating_bind; [apply terminating_idlist_of|intros ids].
    apply terminating_ret.
Qed.

Lemma terminating_getArticleIds spin query max_results timeout :
  (Z.to_nat one_second < spin)%nat ->
  1 <= max_results ->
  forall fuel w,
    min_year w <= max_year w ->
    (Z.to_nat (max_year w - min_year w) < fuel)%nat ->
    terminating clock
      (_getArticleIds clock transport fuel spin query max_results timeout w).
Proof.
  intros Hspin Hmax. induction fuel as [|fuel IH]; intros w Hle Hfuel; [lia|].
  cbn [_getArticleIds].
  apply terminating_bind; [apply terminating_get_state|intros s0].
  apply terminating_bind; [apply terminating_copy|intros params].
  apply terminating_bind; [apply terminating_search_request|intros _].
  apply terminating_bind; [by apply terminating_get|intros response].
  apply terminating_after_search.
  - unfold effective_retmax. destruct (max_results <? 10000); lia.
  - exact Hle.
  - intros w' Hw'. apply IH; lia.
Qed.


End Termination.

(** ** The default parameters are never written *)

Lemma same_attributes_refl s : same_attributes s s.
Proof. by repeat split. Qed.

Lemma same_attributes_trans s1 s2 s3 :
  same_attributes s1 s2 -> same_attributes s2 s3 -> same_attributes s1 s3.
Proof.
  intros (H1 & H2 & H3 & H4) (H1' & H2' & H3' & H4').
  repeat split; congruence.
Qed.

#[local] Hint Resolve same_attributes_refl : core.

Lemma preserves_intro {A} n (m : M A) :
  (forall s o s',
     m s = (o, s') -> (n <= length (heap s))%nat ->
     same_attributes s s' /\
     (n <= length (heap s'))%nat /\
     forall l, (l < n)%nat -> heap s' !! l = heap s !! l) ->
  preserves n m.
Proof.
  intros H s Hn. destruct (m s) as [o s'] eqn:E. cbn [snd]. eapply H; eauto.
Qed.

Lemma preserves_ret {A} n (a : A) : preserves n (ret a).
Proof. intros s Hn. cbn. auto. Qed.

Lemma preserves_raise {A} n e : preserves n (@raise A e).
Proof. intros s Hn. cbn. auto. Qed.

Lemma preserves_get_state n : preserves n get_state.
Proof. intros s Hn. cbn. auto. Qed.

Lemma preserves_print n line : preserves n (print line).
Proof. intros s Hn. cbn. split; [by repeat split|auto]. Qed.

Lemma preserves_bind {A B} n (m : M A) (k : A -> M B) :
  preserves n m -> (forall a, preserves n (k a)) -> preserves n (bind m k).
Proof.
  intros Hm Hk s Hn. unfold bind. specialize (Hm s Hn).
  destruct (m s) as [[a|e| |] s']; cbn [fst snd] in *; try exact Hm.
  destruct Hm as (Hp & Hn' & Hl). specialize (Hk a s' Hn').
  destruct Hk as (Hp' & Hn'' & Hl').
  split; [by eapply same_attributes_trans|]. split; [exact Hn''|].
  intros l Hlt. rewrite Hl' by exact Hlt. by apply Hl.
Qed.

Lemma preserves_ext {A} n (m m' : M A) :
  (forall s, m s = m' s) -> preserves n m' -> preserves n m.
Proof. intros Heq Hm s Hn. rewrite Heq. by apply Hm. Qed.

(** A copy is a new object, above the ones that are kept. *)
Lemma preserves_copy_bind {A} n r (k : ref -> M A) :
  (forall r', (n <= r')%nat -> preserves n (k r')) ->
  preserves n (bind (copy r) k).
Proof.
  intros Hk. apply preserves_intro. intros s o s' E Hn.
  unfold bind, copy in E.
  destruct (heap s !! r) as [d|]; [|injection E as <- <-; auto].
  destruct (Hk (length (heap s)) Hn (set_heap (heap s ++ [d]) s))
    as (Hp & Hn' & Hl).
  { cbn. rewrite length_app. lia. }
  rewrite E in Hp, Hn', Hl. cbn [snd] in Hp, Hn', Hl.
  split; [exact Hp|]. split; [exact Hn'|].
  intros l Hlt. rewrite Hl by exact Hlt. cbn.
  apply lookup_app_l. lia.
Qed.

Lemma preserves_setitem n r k v :
  (n <= r)%nat -> preserves n (setitem r k v).
Proof.
  intros Hr. apply preserves_intro. intros s o s' E Hn. unfold setitem in E.
  destruct (heap s !! r) as [d|]; injection E as <- <-; cbn; [|auto].
  split; [by repeat split|]. split; [rewrite length_insert; lia|].
  intros l Hlt. apply list_lookup_insert_ne. lia.
Qed.

Lemma preserves_wait_admission n fuel : preserves n (wait_admission clock fuel).
Proof.
  intros s Hn. destruct (wait_admission clock fuel s) as [o s'] eqn:Hw.
  apply wait_admission_frame in Hw. cbn [snd]. rewrite Hw. cbn.
  split; [by repeat split|auto].
Qed.

Lemma preserves_requests_get n url r timeout :
  preserves n (requests_get transport url r timeout).
Proof.
  apply preserves_intro. intros s o s' E Hn. unfold requests_get in E.
  destruct (heap s !! r); [|injection E as <- <-; cbn; auto].
  destruct (transport _ _); injection E as <- <-; cbn;
    (split; [by repeat split|auto]).
Qed.

Lemma preserves_get n spin url r output timeout :
  (n <= r)%nat -> preserves n (_get clock transport spin url r output timeout).
Proof.
  intros Hr. unfold _get.
  apply preserves_bind; [apply preserves_wait_admission|intros _].
  apply preserves_bind; [by apply preserves_setitem|intros _].
  apply preserves_bind; [apply preserves_requests_get|intros response].
  destruct (raise_for_status response); [apply preserves_raise|].
  apply preserves_bind;
    [intros s Hn; cbn; split; [by repeat split|auto]|intros t].
  apply preserves_bind;
    [intros s Hn; cbn; split; [by repeat split|auto]|intros _].
  destruct (String.eqb output "json"); [destruct (json response)|];
    first [apply preserves_ret|apply preserves_raise].
Qed.

Lemma preserves_for_each {A B} n (body : B -> A -> M B) l :
  (forall acc x, preserves n (body acc x)) ->
  forall acc, preserves n (for_each body l acc).
Proof.
  intros Hbody. induction l as [|x l IH]; intros acc; simpl.
  - apply preserves_ret.
  - apply preserves_bind; [apply Hbody|exact IH].
Qed.

Lemma preserves_total_of n response : preserves n (total_of response).
Proof.
  unfold total_of. destruct response as [j|t]; [|apply preserves_raise].
  destruct (esearchresult j) as [r|]; [|apply preserves_raise].
  destruct (count r); [apply preserves_ret|apply preserves_raise].
Qed.

Lemma preserves_idlist_of n response : preserves n (idlist_of response).
Proof.
  unfold idlist_of. destruct response as [j|t]; [|apply preserves_raise].
  destruct (esearchresult j) as [r|]; [|apply preserves_ret].
  destruct (idlist r); apply preserves_ret.
Qed.

Lemma preserves_floordiv n a b : preserves n (floordiv a b).
Proof.
  unfold floordiv. destruct (b =? 0); [apply preserves_raise|apply preserves_ret].
Qed.

Lemma preserves_split_range n recur sub lo hi batch_count article_ids :
  (forall w, preserves n (recur w)) ->
  preserves n (split_range recur sub lo hi batch_count article_ids).
Proof.
  intros Hrecur. unfold split_range.
  apply preserves_bind; [apply preserves_floordiv|intros step].
  apply preserves_bind.
  - apply preserves_for_each. intros acc i.
    apply preserves_bind; [apply Hrecur|intros ids; apply preserves_ret].
  - intros ids. apply preserves_bind.
    + unfold truediv_isinstance_float.
      destruct (batch_count =? 0); [apply preserves_raise|].
      destruct (float_overflow _ _); [apply preserves_raise|apply preserves_ret].
    + intros [|]; [|apply preserves_ret].
      apply preserves_bind; [apply Hrecur|intros ids'; apply preserves_ret].
Qed.

Lemma preserves_after_search n recur max_results w response :
  (forall w', preserves n (recur w')) ->
  preserves n (after_search recur max_results w response).
Proof.
  intros Hrecur. unfold after_search.
  apply preserves_bind; [apply preserves_total_of|intros total].
  apply preserves_bind; [apply preserves_print|intros _].
  destruct (total >? effective_retmax max_results).
  - apply preserves_bind; [apply preserves_floordiv|intros q].
    repeat match goal with
           | |- preserves _ (if ?b then _ else _) => destruct b
           end;
      try (by apply preserves_split_range).
    apply preserves_bind; [apply preserves_print|intros _; apply preserves_ret].
  - apply preserves_bind; [apply preserves_idlist_of|intros ids].
    apply preserves_ret.
Qed.

Lemma preserves_search_request n query max_results w r :
  (n <= r)%nat -> preserves n (search_request query max_results w r).
Proof.
  intros Hr. unfold search_request.
  do 4 (apply preserves_bind; [by apply preserves_setitem|intros _]).
  destruct (max_results <? 10000);
    [by apply preserves_setitem|apply preserves_ret].
Qed.

Lemma preserves_getArticleIds n fuel spin query max_results timeout w :
  preserves n (_getArticleIds clock transport fuel spin query max_results timeout w).
Proof.
  revert w. induction fuel as [|fuel IH]; intros w.
  - intros s Hn. cbn. auto.
  - cbn [_getArticleIds].
    apply preserves_bind; [apply preserves_get_state|intros s0].
    apply preserves_copy_bind. intros r Hr.
    apply preserves_bind; [by apply preserves_search_request|intros _].
    apply preserves_bind; [by apply preserves_get|intros response].
    by apply preserves_after_search.
Qed.




(** The default parameters after a call that preserves the objects the
    client started with. *)
Lemma preserves_defaults {A} (m : M A) s d :
  preserves (S (parameters s)) m ->
  heap s !! parameters s = Some d ->
  parameters (snd (m s)) = parameters s /\
  heap (snd (m s)) !! parameters (snd (m s)) = Some d.
Proof.
  intros Hm Hd. apply lookup_lt_Some in Hd as Hlt.
  destruct (Hm s Hlt) as ((_ & _ & _ & Hp) & _ & Hl).
  split; [exact Hp|]. rewrite Hp, Hl by lia. exact Hd.
Qed.


(** ** Every request is sent from a copy of the defaults *)

























(** ** Fetching in batches *)

Lemma batches_from_concat n fuel : forall l,
  (0 < n)%nat -> (length l <= fuel)%nat -> concat (batches_from fuel l n) = l.
Proof.
  induction fuel as [|fuel IH]; intros l Hn Hlen; simpl.
  - destruct l; [reflexivity|simpl in Hlen; lia].
  - destruct l as [|x l]; [reflexivity|].
    cbn [concat]. rewrite IH.
    + apply take_drop.
    + exact Hn.
    + rewrite length_drop. simpl in *. lia.
Qed.

Lemma batches_concat l n : (0 < n)%nat -> concat (batches l n) = l.
Proof.
  intros Hn. unfold batches. destruct n as [|n]; [lia|].
  by apply batches_from_concat.
Qed.

Section Chunking.

Hypothesis clock_advances : advancing clock.
Variable records_of_id : string -> list Publication.
Hypothesis endpoint : consistent_endpoint transport fromstring records_of_id.

Lemma good_logged_requested h request s :
  good clock s -> good clock (logged clock (requested h request s)).
Proof.
  intros [Hlim Hpast]. split; [exact Hlim|]. cbn.
  apply Forall_app. split.
  - eapply Forall_impl; [exact Hpast|]. intros x Hx. simpl in Hx.
    specialize (clock_advances (ticks s)). lia.
  - constructor; [|constructor]. specialize (clock_advances (ticks s)). lia.
Qed.

(** One fetch on a good client: the records of the ids, in some order. *)
Lemma _getArticles_records spin article_ids timeout s d :
  good clock s ->
  heap s !! parameters s = Some d ->
  (Z.to_nat one_second < spin)%nat ->
  exists articles s',
    _getArticles clock transport fromstring spin article_ids timeout s
      = (Ok articles, s') /\
    Permutation articles (flat_map records_of_id article_ids) /\
    good clock s' /\ heap s' !! parameters s' = Some d.
Proof.
  intros Hs Hd Hspin.
  destruct (wait_admission_good_ends spin s clock_advances Hs Hspin) as [s1 Hw].
  pose proof (wait_admission_good _ _ _ _ clock_advances Hw Hs) as Hs1.
  pose proof (wait_admission_frame _ _ _ _ Hw) as Hf.
  destruct (endpoint (length (sent s))
              (request_of efetch (fetch_params d article_ids) "xml" timeout)
              article_ids) as (response & root & Ht & Hok & Hroot & Hperm).
  { reflexivity. }
  { cbn. rewrite lookup_insert_ne by discriminate. apply lookup_insert_eq. }
  rewrite (_getArticles_run _ _ _ _ _ _ Hd Hw). cbn zeta.
  rewrite Ht, Hok, Hroot.
  eexists _, _. split; [reflexivity|]. split; [exact Hperm|].
  split; [by apply good_logged_requested|].
  cbn. rewrite Hf. cbn. by apply lookup_app_l_Some.
Qed.

Lemma fetch_loop_records spin timeout article_batches : forall fetched s d,
  good clock s ->
  heap s !! parameters s = Some d ->
  (Z.to_nat one_second < spin)%nat ->
  exists articles s',
    for_each (fun fetched batch =>
                articles <- _getArticles clock transport fromstring spin batch timeout ;;
                ret (fetched ++ [articles]))
             article_batches fetched s
      = (Ok (fetched ++ articles), s') /\
    Permutation (concat articles) (flat_map records_of_id (concat article_batches)).
Proof.
  induction article_batches as [|batch rest IH]; intros fetched s d Hs Hd Hspin.
  - exists [], s. rewrite app_nil_r. split; [reflexivity|constructor].
  - destruct (_getArticles_records spin batch timeout s d Hs Hd Hspin)
      as (articles & s1 & Hrun & Hperm & Hs1 & Hd1).
    destruct (IH (fetched ++ [articles]) s1 d Hs1 Hd1 Hspin)
      as (more & s2 & Hrest & Hperm').
    exists (articles :: more), s2. split.
    + cbn [for_each]. unfold bind at 1. unfold bind at 1. rewrite Hrun.
      unfold ret at 1. rewrite Hrest. by rewrite <- app_assoc.
    + cbn [concat]. rewrite flat_map_app. by apply Permutation_app.
Qed.

Lemma fetch_batches_records spin timeout article_batches s d :
  good clock s ->
  heap s !! parameters s = Some d ->
  (Z.to_nat one_second < spin)%nat ->
  exists articles s',
    fetch_batches clock transport fromstring spin article_batches timeout s
      = (Ok articles, s') /\
    Permutation (concat articles) (flat_map records_of_id (concat article_batches)).
Proof.
  intros Hs Hd Hspin.
  destruct (fetch_loop_records spin timeout article_batches [] s d Hs Hd Hspin)
    as (articles & s' & Hrun & Hperm).
  exists articles, s'. unfold fetch_batches. rewrite Hrun. by split.
Qed.

(** C9: for a given id list, the records fetched batch by batch and
    flattened are the same multiset whatever the positive batch size, and
    the same as the records of [get_publications_from_ids] with its batches
    of 250, the endpoint returning the same records for the same ids. *)
Theorem chunk_size_is_not_semantic spin article_ids timeout s d n m :
  good clock s ->
  heap s !! parameters s = Some d ->
  (Z.to_nat one_second < spin)%nat ->
  (0 < n)%nat -> (0 < m)%nat ->
  exists by_n by_m all,
    fst (batch_query_ids clock transport fromstring spin article_ids n timeout s)
      = Ok by_n /\
    fst (batch_query_ids clock transport fromstring spin article_ids m timeout s)
      = Ok by_m /\
    fst (get_publications_from_ids clock transport fromstring spin article_ids
           timeout s) = Ok all /\
    Permutation (concat by_n) (concat by_m) /\
    Permutation all (concat by_n) /\
    Permutation (concat by_n) (flat_map records_of_id article_ids).
Proof.
  intros Hs Hd Hspin Hn Hm.
  destruct (fetch_batches_records spin timeout (batches article_ids n) s d Hs Hd Hspin)
    as (by_n & s_n & Hrun_n & Hperm_n).
  destruct (fetch_batches_records spin timeout (batches article_ids m) s d Hs Hd Hspin)
    as (by_m & s_m & Hrun_m & Hperm_m).
  destruct (fetch_batches_records spin timeout (batches article_ids 250) s d Hs Hd Hspin)
    as (by_250 & s_250 & Hrun_250 & Hperm_250).
  rewrite batches_concat in Hperm_n, Hperm_m, Hperm_250 by lia.
  exists by_n, by_m, (concat by_250). unfold batch_query_ids.
  split; [by rewrite Hrun_n|]. split; [by rewrite Hrun_m|]. split.
  - unfold get_publications_from_ids, bind. by rewrite Hrun_250.
  - split; [|split].
    + etransitivity; [exact Hperm_n|]. by symmetry.
    + etransitivity; [exact Hperm_250|]. by symmetry.
    + exact Hperm_n.
Qed.

End Chunking.

End ClientFacts.

(** ** Instances on the sample worlds *)



Lemma get_error_not_logged_witness :
  let result := _get ex_clock ex_failing 1 "/entrez/eutils/esearch.fcgi" 0%nat
                     "json" 10 ex_client in
  sent (snd result)
    = sent ex_client
      ++ [request_of "/entrez/eutils/esearch.fcgi" ex_defaults "json" 10] /\
  fst result = Raised (HTTPError "500 Server Error") /\
  _requestsMade (snd result) = _requestsMade ex_client.
Proof.
  destruct (get_error_not_logged ex_clock ex_failing 1 "/entrez/eutils/esearch.fcgi"
              0%nat "json" 10 ex_client ex_client ex_defaults)
    as (Hsent & _ & _ & Hraised & Hlog); [reflexivity|reflexivity|].
  exact (conj Hsent (conj Hraised Hlog)).
Defined.

(** C7 fails as stated: a 304 is not a 2xx status, yet [_get] does not
    raise on it: it returns the text of the response, and the time of the
    request is appended to the log. *)
Lemma redirection_status_is_logged :
  let result := _get ex_clock ex_not_modified 1 "/entrez/eutils/efetch.fcgi" 0%nat
                     "xml" 10 ex_client in
  ex_not_modified 0 (request_of "/entrez/eutils/efetch.fcgi" ex_defaults "xml" 10)
    = Some (mkResponse 304 "Not Modified" None "") /\
  ~ (200 <= 304 < 300) /\
  fst result = Ok (TextPayload "") /\
  _requestsMade ex_client = [] /\
  _requestsMade (snd result) = [0].
Proof.
  cbn zeta. split; [reflexivity|]. split; [lia|].
  split; [vm_compute; reflexivity|]. split; vm_compute; reflexivity.
Qed.

(** ** A recursion that does not end *)






(** ** The sample endpoint is consistent *)

Lemma list_ascii_of_string_app a b :
  String.list_ascii_of_string (a +:+ b) = String.list_ascii_of_string a ++ String.list_ascii_of_string b.
Proof. induction a as [|c a IH]; simpl; [reflexivity|by rewrite IH]. Qed.

Lemma ex_join_chars ids :
  String.list_ascii_of_string (ex_join ids) = flat_map String.list_ascii_of_string ids.
Proof.
  induction ids as [|id ids IH]; simpl; [reflexivity|].
  by rewrite list_ascii_of_string_app, IH.
Qed.

Lemma ex_parse_records chars :
  records_of (Elem "PubmedArticleSet" "" (map ex_article chars))
  = map (fun c => PubMedArticle (ex_article c)) chars.
Proof.
  unfold records_of. cbn [iter String.eqb Ascii.eqb Bool.eqb app].
  assert (forall l,
            (fix iter_children (l : list Element) : list Element :=
               match l with
               | [] => []
               | c :: l' => iter "PubmedArticle" c ++ iter_children l'
               end) (map ex_article l) = map ex_article l) as ->.
  { induction l as [|c l IH]; [reflexivity|]. cbn [map]. rewrite IH. reflexivity. }
  assert (forall l,
            (fix iter_children (l : list Element) : list Element :=
               match l with
               | [] => []
               | c :: l' => iter "PubmedBookArticle" c ++ iter_children l'
               end) (map ex_article l) = []) as ->.
  { induction l as [|c l IH]; [reflexivity|]. cbn [map]. rewrite IH. reflexivity. }
  rewrite app_nil_r. apply map_map.
Qed.

Lemma ex_fetch_consistent : consistent_endpoint ex_fetch ex_parse ex_records_of_id.
Proof.
  intros n request article_ids _ Hid.
  exists (mkResponse 200 "OK" None (ex_join article_ids)),
         (Elem "PubmedArticleSet" ""
               (map ex_article (String.list_ascii_of_string (ex_join article_ids)))).
  unfold ex_fetch. rewrite Hid. repeat split.
  rewrite ex_parse_records, ex_join_chars. unfold ex_records_of_id.
  clear. induction article_ids as [|id ids IH]; [constructor|].
  cbn [flat_map]. rewrite map_app. by apply Permutation_app.
Qed.

(** ** More instances on the sample worlds *)

Lemma getArticles_order_witness :
  fst (_getArticles ex_clock ex_mixed_fetch ex_mixed_parse 1
         ["book-id"; "article-id"] 10 ex_client)
  = Ok [PubMedArticle (Elem "PubmedArticle" "article" []);
        PubMedBookArticle (Elem "PubmedBookArticle" "book" [])].
Proof.
  apply (getArticles_order ex_clock ex_mixed_fetch ex_mixed_parse 1
           ["book-id"; "article-id"] 10 ex_client ex_client ex_defaults
           (mkResponse 200 "OK" None "mixed") ex_mixed_payload); reflexivity.
Defined.

Lemma single_call_within_retmax_witness :
  let result := _getArticleIds ex_slow_clock (ex_constant 5 ["11"; "12"; "13"; "14"; "15"])
                  1 1 "q" 100 10 default_window ex_client in
  fst result = Ok ["11"; "12"; "13"; "14"; "15"] /\
  sent (snd result) =
    sent ex_client
    ++ [request_of esearch (search_params ex_defaults "q" 100 default_window) "json" 10].
Proof.
  apply (single_call_within_retmax ex_slow_clock
           (ex_constant 5 ["11"; "12"; "13"; "14"; "15"]) 0 1 "q" 100 10
           default_window ex_client ex_client ex_defaults
           (ex_search_response 5 ["11"; "12"; "13"; "14"; "15"])
           (mkJson (Some (mkESearchResult (Some 5) (Some ["11"; "12"; "13"; "14"; "15"]))))
           (mkESearchResult (Some 5) (Some ["11"; "12"; "13"; "14"; "15"])) 5);
    try reflexivity.
  vm_compute. discriminate.
Defined.

(** C2 fails as stated: 500 matches are below the server cap of 10000, but
    with [max_results = 100] they exceed the effective retmax; the window is
    split and eight searches are made, and what is returned is not the id
    list of the first response. *)
Lemma under_cap_yet_split :
  let result := _getArticleIds ex_slow_clock (ex_crowded_root 500) 2 1 "q" 100 10
                  default_window ex_client in
  500 <= 10000 /\
  ex_crowded_root 500 0 (request_of esearch
                           (search_params ex_defaults "q" 100 default_window) "json" 10)
    = Some (ex_search_response 500 ["1"; "2"]) /\
  fst result = Ok ["7"; "7"; "7"; "7"; "7"; "7"; "7"] /\
  length (sent (snd result)) = 8%nat /\
  fst result <> Ok ["1"; "2"].
Proof.
  cbn zeta. split; [lia|]. split; [reflexivity|].
  split; [vm_compute; reflexivity|]. split; [vm_compute; reflexivity|].
  vm_compute. discriminate.
Qed.

Lemma single_year_over_retmax_empty_witness :
  let result := _getArticleIds ex_slow_clock (ex_constant 20000 ["1"]) 1 1 "q" 10000 10
                  ex_year_2020 ex_client in
  fst result = Ok [] /\
  sent (snd result) =
    sent ex_client
    ++ [request_of esearch (search_params ex_defaults "q" 10000 ex_year_2020) "json" 10].
Proof.
  apply (single_year_over_retmax_empty ex_slow_clock (ex_constant 20000 ["1"])
           0 1 "q" 10000 10 ex_year_2020 ex_client ex_client ex_defaults
           (ex_search_response 20000 ["1"])
           (mkJson (Some (mkESearchResult (Some 20000) (Some ["1"]))))
           (mkESearchResult (Some 20000) (Some ["1"])) 20000);
    try reflexivity.
  vm_compute. discriminate.
Defined.

(** C4 fails as stated: with [max_results = 0] the effective retmax is
    zero, a reported total of 5 exceeds it, and the batch count cannot be
    computed: the call raises instead of returning the empty list. *)
Lemma zero_retmax_raises :
  let result := _getArticleIds ex_slow_clock (ex_constant 5 ["1"]) 2 1 "q" 0 10
                  ex_year_2020 ex_client in
  min_year ex_year_2020 = max_year ex_year_2020 /\
  effective_retmax 0 < 5 /\
  fst result = Raised ZeroDivisionError /\
  fst result <> Ok [].
Proof.
  cbn zeta. split; [reflexivity|]. split; [reflexivity|].
  split; [vm_compute; reflexivity|]. vm_compute. discriminate.
Qed.

(** C1, on the code: a single-year window from January to December with
    20000 matches is not split by months.  The one search is all that is
    sent, the window is reported as holding too many entries, and the empty
    list is returned. *)
Theorem month_split_never_taken :
  let result := _getArticleIds ex_slow_clock (ex_constant 20000 ["1"]) 5 1 "q" 10000 10
                  ex_year_2020 ex_client in
  min_month ex_year_2020 <> max_month ex_year_2020 /\
  effective_retmax 10000 < 20000 /\
  fst result = Ok [] /\
  ex_windows (sent (snd result))
    = [(Some (PStr "2020/1/1"), Some (PStr "2020/12/31"))] /\
  last (stdout (snd result))
    = Some (window_line ex_year_2020 "Too many entries:" 20000).
Proof.
  cbn zeta. split; [discriminate|]. split; [reflexivity|].
  split; [vm_compute; reflexivity|]. split; vm_compute; reflexivity.
Qed.

(** C5, on the code: the 2000 years of the default window divide evenly
    into the two batches of 15000 matches, and the call pinned to the year
    3000 is made all the same, after the two calls of the loop. *)
Theorem extra_call_without_remainder :
  let result := _getArticleIds ex_slow_clock (ex_crowded_root 15000) 2 1 "q" 10000 10
                  default_window ex_client in
  (3000 - 1000) mod (15000 / effective_retmax 10000 + 1) = 0 /\
  sub_ranges 1000 3000 (15000 / effective_retmax 10000 + 1)
    = [(1000, 2000); (2001, 3000); (3000, 3000)] /\
  ex_windows (sent (snd result))
    = [(Some (PStr "1000/1/1"), Some (PStr "3000/12/31"));
       (Some (PStr "1000/1/1"), Some (PStr "2000/12/31"));
       (Some (PStr "2001/1/1"), Some (PStr "3000/12/31"));
       (Some (PStr "3000/1/1"), Some (PStr "3000/12/31"))] /\
  fst result = Ok ["7"; "7"; "7"].
Proof.
  cbn zeta. split; [reflexivity|]. split; [reflexivity|].
  split; vm_compute; reflexivity.
Qed.




Lemma chunk_size_is_not_semantic_witness :
  exists by_n by_m all,
    fst (batch_query_ids ex_slow_clock ex_fetch ex_parse (S (Z.to_nat one_second))
           ["12"; "345"; "6"] 1 10 ex_client) = Ok by_n /\
    fst (batch_query_ids ex_slow_clock ex_fetch ex_parse (S (Z.to_nat one_second))
           ["12"; "345"; "6"] 2 10 ex_client) = Ok by_m /\
    fst (get_publications_from_ids ex_slow_clock ex_fetch ex_parse
           (S (Z.to_nat one_second)) ["12"; "345"; "6"] 10 ex_client) = Ok all /\
    Permutation (concat by_n) (concat by_m) /\
    Permutation all (concat by_n) /\
    Permutation (concat by_n) (flat_map ex_records_of_id ["12"; "345"; "6"]).
Proof.
  apply (chunk_size_is_not_semantic ex_slow_clock ex_fetch ex_parse)
    with (d := ex_defaults).
  - intros n. unfold ex_slow_clock, one_second. lia.
  - exact ex_fetch_consistent.
  - split; [simpl; lia|constructor].
  - reflexivity.
  - lia.
  - lia.
  - lia.
Defined.

(** * Further properties of the client *)

Section MoreFacts.

Variable clock : nat -> Z.
Variable transport : nat -> Request -> option Response.
Variable fromstring : string -> option Element.

(** ** The request helper *)

(** X1: a call of [_get] hands at most one request to the transport, after
    the requests already made: it never retries and never sends a second
    request, however it ends.  The request it sends goes to the url asked
    for, with the timeout asked for and the output format under
    ["retmode"]. *)
Theorem get_sends_at_most_once spin url r output timeout s :
  let s' := snd (_get clock transport spin url r output timeout s) in
  sent s' = sent s \/
  exists request,
    sent s' = sent s ++ [request] /\
    req_url request = BASE_URL +:+ url /\
    req_timeout request = timeout /\
    req_params request !! "retmode" = Some (PStr output).
Proof.
  cbn zeta.
  destruct (wait_admission clock spin s) as [o s1] eqn:Hw.
  pose proof (wait_admission_frame _ _ _ _ _ Hw) as Hs1.
  assert (sent s1 = sent s) as Hsent by (rewrite Hs1; reflexivity).
  destruct o as [[]|e| |];
    try (left; unfold _get, bind at 1; rewrite Hw; exact Hsent).
  destruct (heap s !! r) as [d|] eqn:Hd.
  - right. exists (request_of url d output timeout).
    rewrite (_get_run _ _ _ _ _ _ _ _ _ _ Hw Hd). cbn zeta.
    split; [|split; [reflexivity|split; [reflexivity|apply lookup_insert_eq]]].
    destruct (transport _ _) as [response|]; [|reflexivity].
    destruct (raise_for_status response); [reflexivity|].
    destruct (String.eqb output "json"); [destruct (json response)|]; reflexivity.
  - left. assert (heap s1 !! r = None) as Hd1 by (rewrite Hs1; exact Hd).
    unfold _get, bind at 1. rewrite Hw. unfold bind at 1, setitem.
    rewrite Hd1. exact Hsent.
Qed.

(** X2: when [requests.get] itself raises (a timeout, no connection), [_get]
    lets the exception through after that one attempt and records no
    timestamp: the log is the one the admission check left. *)
Theorem get_transport_failure spin url r output timeout s s1 d :
  wait_admission clock spin s = (Ok tt, s1) ->
  heap s !! r = Some d ->
  transport (length (sent s)) (request_of url d output timeout) = None ->
  let result := _get clock transport spin url r output timeout s in
  fst result = Raised RequestException /\
  _requestsMade (snd result) = _requestsMade s1 /\
  ticks (snd result) = ticks s1 /\
  sent (snd result) = sent s ++ [request_of url d output timeout].
Proof.
  intros Hw Hd Ht. cbn zeta. rewrite (_get_run _ _ _ _ _ _ _ _ _ _ Hw Hd).
  cbn zeta. rewrite Ht. repeat split.
Qed.

(** X3: [_get] writes the output format into the dict it is given, in
    place, before the request and whatever becomes of it; every other dict
    object is left as it was.  Called on [self.parameters] itself, it
    changes the defaults of the client. *)
Theorem get_writes_retmode_in_place spin url r output timeout s s1 d :
  wait_admission clock spin s = (Ok tt, s1) ->
  heap s !! r = Some d ->
  let s' := snd (_get clock transport spin url r output timeout s) in
  heap s' !! r = Some (<["retmode" := PStr output]> d) /\
  (forall r', r' <> r -> heap s' !! r' = heap s !! r') /\
  parameters s' = parameters s.
Proof.
  intros Hw Hd. cbn zeta. rewrite (_get_run _ _ _ _ _ _ _ _ _ _ Hw Hd).
  cbn zeta.
  pose proof (wait_admission_frame _ _ _ _ _ Hw) as Hs1.
  assert (parameters s1 = parameters s) as Hp by (rewrite Hs1; reflexivity).
  assert (forall st : Outcome Payload * State,
            heap (snd st) = <[r := <["retmode" := PStr output]> d]> (heap s) ->
            parameters (snd st) = parameters s ->
            heap (snd st) !! r = Some (<["retmode" := PStr output]> d) /\
            (forall r', r' <> r -> heap (snd st) !! r' = heap s !! r') /\
            parameters (snd st) = parameters s) as Hgoal.
  { intros st Hh Hps. rewrite Hh. split; [|split; [|exact Hps]].
    - apply list_lookup_insert_eq. eapply lookup_lt_Some; eauto.
    - intros r' Hne. apply list_lookup_insert_ne. congruence. }
  apply Hgoal.
  - destruct (transport _ _) as [response|]; [|reflexivity].
    destruct (raise_for_status response); [reflexivity|].
    destruct (String.eqb output "json"); [destruct (json response)|]; reflexivity.
  - destruct (transport _ _) as [response|]; [|exact Hp].
    destruct (raise_for_status response); [exact Hp|].
    destruct (String.eqb output "json"); [destruct (json response)|]; exact Hp.
Qed.

(** ** The admission loop *)

Lemma wait_admission_blocked fuel : forall s,
  _rateLimit s < 0 ->
  exists s', wait_admission clock fuel s = (StillWaiting, s').
Proof.
  induction fuel as [|fuel IH]; intros s Hneg; simpl.
  - by eexists.
  - unfold bind. rewrite _exceededRateLimit_run.
    destruct (_ >? _) eqn:E.
    + apply IH. exact Hneg.
    + rewrite Z.gtb_ltb in E. apply Z.ltb_ge in E. lia.
Qed.

(** X4: with a ceiling below zero no request is ever admitted: however many
    checks are made, [_get] is still waiting and nothing is sent. *)
Theorem negative_ceiling_never_admits spin url r output timeout s :
  _rateLimit s < 0 ->
  fst (_get clock transport spin url r output timeout s) = StillWaiting /\
  sent (snd (_get clock transport spin url r output timeout s)) = sent s.
Proof.
  intros Hneg. destruct (wait_admission_blocked spin s Hneg) as [s' Hw].
  pose proof (wait_admission_frame _ _ _ _ _ Hw) as Hs'.
  assert (_get clock transport spin url r output timeout s = (StillWaiting, s'))
    as -> by (unfold _get, bind at 1; by rewrite Hw).
  split; [reflexivity|]. cbn [snd]. rewrite Hs'. reflexivity.
Qed.

(** X5: a request is admitted by the first check, without waiting, when
    the log holds at most as many timestamps as the ceiling; the check has
    read the clock once per logged timestamp. *)
Theorem admitted_at_first_check fuel s :
  Z.of_nat (length (_requestsMade s)) <= _rateLimit s ->
  exists s1,
    wait_admission clock (S fuel) s = (Ok tt, s1) /\
    ticks s1 = (ticks s + length (_requestsMade s))%nat /\
    sublist (_requestsMade s1) (_requestsMade s).
Proof.
  intros Hlen. cbn [wait_admission]. unfold bind. rewrite _exceededRateLimit_run.
  pose proof (prune_length clock (_requestsMade s) (ticks s)) as Hp.
  destruct (_ >? _) eqn:E.
  - apply Z.gtb_lt in E. lia.
  - eexists. split; [reflexivity|]. split; [reflexivity|].
    cbn. apply prune_sublist.
Qed.

(** X6: on a client whose ceiling is not negative and whose log is not
    ahead of the clock, the wait of [_get] ends within a second's worth of
    checks, the clock advancing: [_get] returns or raises, and leaves such
    a client. *)
Theorem get_wait_ends spin url r output timeout s :
  advancing clock ->
  good clock s ->
  (Z.to_nat one_second < spin)%nat ->
  finished (fst (_get clock transport spin url r output timeout s)) /\
  good clock (snd (_get clock transport spin url r output timeout s)).
Proof.
  intros Hadv Hs Hspin. by apply terminating_get.
Qed.

Lemma prune_drops_old ts n t :
  advancing clock ->
  t + one_second <= clock n ->
  ~ In t (fst (prune clock ts n)).
Proof.
  intros Hadv Hold Hin.
  pose proof (prune_recent clock ts n Hadv) as Hrec.
  rewrite Forall_forall in Hrec. apply list_elem_of_In in Hin.
  specialize (Hrec t Hin). simpl in Hrec. lia.
Qed.

(** X7: what an admission check keeps of the log, the clock advancing: the
    survivors stay in their order; a timestamp a full second old when the
    check begins is dropped; a timestamp less than a second old when the
    check ends is kept; the answer is whether more survive than the
    ceiling. *)
Theorem exceededRateLimit_pruning s :
  advancing clock ->
  let result := _exceededRateLimit clock s in
  sublist (_requestsMade (snd result)) (_requestsMade s) /\
  (forall t, t + one_second <= clock (ticks s) ->
             ~ In t (_requestsMade (snd result))) /\
  (forall t, In t (_requestsMade s) ->
             clock (ticks (snd result)) - one_second < t ->
             In t (_requestsMade (snd result))) /\
  fst result = Ok (Z.of_nat (length (_requestsMade (snd result))) >? _rateLimit s).
Proof.
  intros Hadv. cbn zeta. rewrite _exceededRateLimit_run. cbn.
  split; [apply prune_sublist|]. split; [|split; [|reflexivity]].
  - intros t Hold. by apply prune_drops_old.
  - intros t Hin Hyoung. by apply prune_keeps_young.
Qed.

(** ** The ranges of a split *)

Lemma split_range_call_ranges recur sub lo hi batch_count article_ids s :
  batch_count <> 0 ->
  float_overflow (hi - lo) batch_count = false ->
  split_range recur sub lo hi batch_count article_ids s =
    for_each (call_range recur sub) (sub_ranges lo hi batch_count) article_ids s.
Proof. intros Hbc Hfit. by apply split_range_calls. Qed.

Lemma split_range_made_ranges recur sub lo hi batch_count article_ids s :
  batch_count <> 0 ->
  split_range recur sub lo hi batch_count article_ids s =
    (gathered <- for_each (call_range recur sub) (made_ranges lo hi batch_count)
                          article_ids ;;
     if float_overflow (hi - lo) batch_count then raise OverflowError
     else ret gathered) s.
Proof. intros Hbc. by apply split_range_made. Qed.

Lemma float_limit_pos : 1 <= float_limit.
Proof. vm_compute. discriminate. Qed.

(** A quotient below one fits a float. *)
Lemma small_quotient_fits a b :
  Z.abs a < Z.abs b -> float_overflow a b = false.
Proof.
  intros Hlt. unfold float_overflow. apply Z.leb_gt.
  pose proof float_limit_pos as Hpos. revert Hpos.
  generalize float_limit. intros limit Hpos. nia.
Qed.

Lemma In_insert_sorted_keep x y l : In x l -> In x (insert_sorted y l).
Proof.
  induction l as [|z l IH]; simpl; [tauto|].
  destruct (y <? z); [|destruct (y =? z)]; simpl; tauto.
Qed.

Lemma In_insert_sorted_new y l : In y (insert_sorted y l).
Proof.
  induction l as [|z l IH]; simpl; [tauto|].
  destruct (y <? z); [|destruct (y =? z) eqn:E]; simpl; try tauto.
  apply Z.eqb_eq in E. subst. by left.
Qed.

Lemma In_sorted_set_of x l : In x l -> In x (sorted_set l).
Proof.
  induction l as [|y l IH]; simpl; [tauto|].
  intros [->|H]; [apply In_insert_sorted_new|by apply In_insert_sorted_keep, IH].
Qed.

Lemma In_range_of j n : 0 <= j < n -> In j (range n).
Proof.
  intros Hj. unfold range. rewrite in_map_iff. exists (Z.to_nat j).
  split; [lia|]. apply in_seq. lia.
Qed.

Lemma sorted_set_constant {A} lo (l : list A) :
  l <> [] -> sorted_set (map (fun _ => lo) l) = [lo].
Proof.
  induction l as [|x l IH]; [congruence|]. intros _. cbn [map sorted_set fold_right].
  destruct l as [|y l]; [reflexivity|].
  change (fold_right insert_sorted [] (map (fun _ => lo) (y :: l)))
    with (sorted_set (map (fun _ : A => lo) (y :: l))).
  rewrite IH by congruence. cbn [insert_sorted].
  rewrite Z.ltb_irrefl, Z.eqb_refl. reflexivity.
Qed.

Lemma sub_ranges_narrow_span lo hi batch_count :
  0 <= hi - lo < batch_count ->
  sub_ranges lo hi batch_count = [(lo, lo); (hi, hi)].
Proof.
  intros Hspan. unfold sub_ranges, loop_ranges. cbn zeta.
  rewrite Z.div_small by lia.
  rewrite (map_ext (fun i => lo + 0 * i) (fun _ => lo)) by (intros; lia).
  rewrite sorted_set_constant.
  - cbn [map app]. rewrite Z.eqb_refl, Z.add_0_r. reflexivity.
  - unfold range. destruct (Z.to_nat batch_count) eqn:E; [lia|discriminate].
Qed.

(** X8: when the range spans fewer values than there are batches, the step
    is zero and the boundaries collapse into one: the split makes two calls
    only, one pinned to the lower bound and one pinned to the upper bound,
    and nothing in between is searched. *)
Theorem split_of_narrow_span recur sub lo hi batch_count article_ids s :
  0 <= hi - lo < batch_count ->
  split_range recur sub lo hi batch_count article_ids s =
    (first <- recur (sub lo lo) ;;
     last <- recur (sub hi hi) ;;
     ret ((article_ids ++ first) ++ last)) s.
Proof.
  intros Hspan.
  rewrite split_range_call_ranges by (try apply small_quotient_fits; lia).
  rewrite sub_ranges_narrow_span by exact Hspan.
  cbn [for_each]. unfold call_range, bind, ret. cbn [fst snd].
  destruct (recur (sub lo lo) s) as [[ids|e| |] s1]; try reflexivity.
  destruct (recur (sub hi hi) s1) as [[ids'|e| |] s2]; reflexivity.
Qed.

(** X9: which values the calls of a split cover, when the range spans at
    least as many values as there are batches (the step is at least one)
    and the quotient of the gap by the batch count fits a float: those from
    the lower bound up to the lower bound plus batch count times the step,
    and the upper bound.  The values left over by the division, but for the
    upper bound itself, are in no call. *)
Theorem split_coverage recur sub lo hi batch_count y :
  1 <= batch_count -> batch_count <= hi - lo ->
  float_overflow (hi - lo) batch_count = false ->
  (forall article_ids s,
     split_range recur sub lo hi batch_count article_ids s =
       for_each (call_range recur sub) (sub_ranges lo hi batch_count) article_ids s)
  /\
  (covered y (sub_ranges lo hi batch_count) <->
   lo <= y <= lo + (hi - lo) / batch_count * batch_count \/ y = hi).
Proof.
  intros Hbc Hspan Hfit.
  split; [intros; apply split_range_call_ranges; [lia|exact Hfit]|].
  unfold covered, sub_ranges, loop_ranges. cbn zeta.
  set (step := (hi - lo) / batch_count).
  assert (1 <= step) as Hstep1 by (apply Z.div_le_lower_bound; lia).
  assert (batch_count * step <= hi - lo) as Hstep by (apply Z.mul_div_le; lia).
  split.
  - intros ([a b] & Hin & Hy). cbn [fst snd] in Hy.
    rewrite in_app_iff, in_map_iff in Hin.
    destruct Hin as [(i & Hp & Hi)|[Hp|[]]].
    + apply In_sorted_set in Hi. rewrite in_map_iff in Hi.
      destruct Hi as (j & <- & Hj). apply In_range in Hj.
      left. destruct (lo + step * j =? lo) eqn:E; injection Hp as <- <-; nia.
    + injection Hp as <- <-. right. lia.
  - intros [Hy| ->].
    + destruct (Z_le_gt_dec y (lo + step)) as [Hfirst|Hlater].
      * exists (lo, lo + step). split; [|cbn; lia].
        rewrite in_app_iff, in_map_iff. left. exists lo. split.
        -- rewrite Z.eqb_refl. reflexivity.
        -- apply In_sorted_set_of. rewrite in_map_iff. exists 0.
           split; [lia|]. apply In_range_of. lia.
      * set (j := (y - lo - 1) / step).
        assert (step * j <= y - lo - 1) as Hj1 by (apply Z.mul_div_le; lia).
        assert (y - lo - 1 < step * (j + 1)) as Hj2.
        { replace (step * (j + 1)) with (step * Z.succ j) by lia.
          apply Z.mul_succ_div_gt. lia. }
        assert (1 <= j) as Hj3 by (apply Z.div_le_lower_bound; lia).
        assert (j < batch_count) as Hj4 by (apply Z.div_lt_upper_bound; nia).
        exists (lo + step * j + 1, lo + step * j + step). split; [|cbn; lia].
        rewrite in_app_iff, in_map_iff. left. exists (lo + step * j). split.
        -- destruct (lo + step * j =? lo) eqn:E; [|reflexivity].
           apply Z.eqb_eq in E. nia.
        -- apply In_sorted_set_of. rewrite in_map_iff. exists j.
           split; [reflexivity|]. apply In_range_of. lia.
    + exists (hi, hi). split; [|cbn; lia].
      rewrite in_app_iff. right. by left.
Qed.

Lemma sorted_set_increasing l :
  StronglySorted Z.lt l -> sorted_set l = l.
Proof.
  induction 1 as [|x l Hs IH Hall]; [reflexivity|].
  cbn [sorted_set fold_right]. fold (sorted_set l). rewrite IH.
  destruct l as [|y l]; [reflexivity|].
  inversion Hall as [|? ? Hxy _]; subst. cbn [insert_sorted].
  apply Z.ltb_lt in Hxy. by rewrite Hxy.
Qed.

Lemma boundaries_increasing lo step n : forall start,
  0 < step ->
  StronglySorted Z.lt
    (map (fun i => lo + step * i) (map Z.of_nat (seq start n))).
Proof.
  induction n as [|n IH]; intros start Hstep; cbn [seq map]; constructor.
  - by apply IH.
  - rewrite Forall_forall. intros x Hx. apply list_elem_of_In in Hx.
    rewrite in_map_iff in Hx. destruct Hx as (i & <- & Hi).
    rewrite in_map_iff in Hi. destruct Hi as (k & <- & Hk).
    apply in_seq in Hk. nia.
Qed.

(** X10: when the range divides evenly into the batches (and holds at least
    as many values as there are batches), and the quotient fits a float,
    the last call of the loop already ends at the upper bound, and the call
    pinned to the upper bound that follows it searches that value a second
    time. *)
Theorem upper_bound_searched_twice recur sub lo hi batch_count :
  1 <= batch_count -> batch_count <= hi - lo ->
  (hi - lo) mod batch_count = 0 ->
  float_overflow (hi - lo) batch_count = false ->
  exists front a,
    a <= hi /\
    sub_ranges lo hi batch_count = front ++ [(a, hi); (hi, hi)] /\
    forall article_ids s,
      split_range recur sub lo hi batch_count article_ids s =
        for_each (call_range recur sub) (front ++ [(a, hi); (hi, hi)]) article_ids s.
Proof.
  intros Hbc Hspan Hmod Hfit.
  set (step := (hi - lo) / batch_count).
  assert (1 <= step) as Hstep1 by (apply Z.div_le_lower_bound; lia).
  assert (hi - lo = batch_count * step) as Hexact.
  { pose proof (Z.div_mod (hi - lo) batch_count ltac:(lia)). unfold step. lia. }
  set (g := fun i => (if i =? lo then i else i + 1, i + step)).
  set (f := fun i => lo + step * i).
  assert (sub_ranges lo hi batch_count
          = map g (map f (range (batch_count - 1)))
            ++ [g (f (batch_count - 1)); (hi, hi)]) as Heq.
  { unfold sub_ranges, loop_ranges. cbn zeta. fold step. fold f. fold g.
    rewrite sorted_set_increasing
      by (unfold range; apply boundaries_increasing; lia).
    unfold range. replace (Z.to_nat batch_count) with (S (Z.to_nat (batch_count - 1))) by lia.
    rewrite seq_S, !map_app. cbn [map]. rewrite <- app_assoc. cbn [app].
    rewrite Nat.add_0_l, Z2Nat.id by lia. reflexivity. }
  exists (map g (map f (range (batch_count - 1)))), (fst (g (f (batch_count - 1)))).
  assert (g (f (batch_count - 1)) = (fst (g (f (batch_count - 1))), hi)) as Hlast.
  { unfold g, f. cbn [fst]. f_equal. nia. }
  split; [|split].
  - unfold g, f. cbn [fst]. destruct (_ =? lo); nia.
  - rewrite Heq. by rewrite Hlast at 1.
  - intros article_ids s. rewrite split_range_call_ranges by (exact Hfit || lia).
    rewrite Heq. by rewrite Hlast at 1.
Qed.

Lemma for_each_raise {A B} (body : B -> A -> M B) pre x post acc s acc1 s1 e s2 :
  for_each body pre acc s = (Ok acc1, s1) ->
  body acc1 x s1 = (Raised e, s2) ->
  for_each body (pre ++ x :: post) acc s = (Raised e, s2).
Proof.
  intros Hpre Hx. rewrite for_each_app. unfold bind at 1. rewrite Hpre.
  cbn [for_each]. unfold bind. by rewrite Hx.
Qed.

(** X11: when the search of one sub-range raises, the split stops there
    with that exception: the ids gathered from the sub-ranges before it are
    not returned and the sub-ranges after it are not searched.  The
    sub-ranges are those the split gets to search, [made_ranges]. *)
Theorem split_stops_at_first_exception recur sub lo hi batch_count article_ids s
    pre p post gathered s1 e s2 :
  batch_count <> 0 ->
  made_ranges lo hi batch_count = pre ++ p :: post ->
  for_each (call_range recur sub) pre article_ids s = (Ok gathered, s1) ->
  recur (sub (fst p) (snd p)) s1 = (Raised e, s2) ->
  split_range recur sub lo hi batch_count article_ids s = (Raised e, s2).
Proof.
  intros Hbc Heq Hpre Hp. rewrite split_range_made_ranges by exact Hbc.
  rewrite Heq. unfold bind at 1.
  erewrite for_each_raise; [reflexivity|exact Hpre|].
  unfold call_range, bind. by rewrite Hp.
Qed.

(** X19: when the quotient of the gap by the batch count does not fit a
    float, the split makes the calls of its loop and then raises
    [OverflowError] (unless a call raised before): it returns no ids, and
    the call pinned to the upper bound is not made. *)
Theorem split_overflow_raises recur sub lo hi batch_count article_ids s :
  batch_count <> 0 ->
  float_overflow (hi - lo) batch_count = true ->
  split_range recur sub lo hi batch_count article_ids s =
    (_ <- for_each (call_range recur sub) (loop_ranges lo hi batch_count)
                   article_ids ;;
     raise OverflowError) s /\
  forall ids, fst (split_range recur sub lo hi batch_count article_ids s) <> Ok ids.
Proof.
  intros Hbc Hover.
  assert (split_range recur sub lo hi batch_count article_ids s =
            (_ <- for_each (call_range recur sub) (loop_ranges lo hi batch_count)
                           article_ids ;;
             raise OverflowError) s) as Heq
    by (by apply split_range_overflow).
  split; [exact Heq|]. intros ids. rewrite Heq. unfold bind.
  destruct (for_each _ _ _ s) as [[a|e| |] s']; discriminate.
Qed.


(** ** Searches, counts and fetches *)

Lemma setitem_run r k v s d :
  heap s !! r = Some d ->
  setitem r k v s = (Ok tt, set_heap (<[r := <[k := v]> d]> (heap s)) s).
Proof. intros Hd. unfold setitem. by rewrite Hd. Qed.

Lemma effective_retmax_min max_results :
  effective_retmax max_results = Z.min max_results 10000.
Proof. unfold effective_retmax. destruct (max_results <? 10000) eqn:E; lia. Qed.

(** X12: the parameters [_getArticleIds] prepares for its search, on
    whatever dict it is given: the query under ["term"], the smaller of
    [max_results] and 10000 under ["retmax"], the bounds of the window as
    year/month/day under ["mindate"] and ["maxdate"]; every other item of
    the dict is kept, and no other dict object is touched. *)
Theorem search_request_items query max_results w r s d :
  heap s !! r = Some d ->
  exists s' d',
    search_request query max_results w r s = (Ok tt, s') /\
    heap s' = <[r := d']> (heap s) /\
    d' !! "term" = Some (PStr query) /\
    d' !! "retmax" = Some (PInt (Z.min max_results 10000)) /\
    d' !! "mindate"
      = Some (PStr (str (min_year w) +:+ "/" +:+ str (min_month w) +:+ "/"
                    +:+ str (min_day w))) /\
    d' !! "maxdate"
      = Some (PStr (str (max_year w) +:+ "/" +:+ str (max_month w) +:+ "/"
                    +:+ str (max_day w))) /\
    forall k, k <> "term" -> k <> "retmax" -> k <> "mindate" -> k <> "maxdate" ->
              d' !! k = d !! k.
Proof.
  intros Hd. apply lookup_lt_Some in Hd as Hlt.
  exists (set_heap (<[r := search_params d query max_results w]> (heap s)) s),
         (search_params d query max_results w).
  split; [|split; [reflexivity|]].
  - unfold search_request, search_params.
    unfold bind at 1. rewrite (setitem_run _ _ _ _ _ Hd).
    do 3 (unfold bind at 1; erewrite setitem_run
            by (cbn [heap set_heap]; by apply list_lookup_insert_eq);
          cbn [heap set_heap]; rewrite list_insert_insert_eq).
    destruct (max_results <? 10000); [|reflexivity].
    erewrite setitem_run by (cbn [heap set_heap]; by apply list_lookup_insert_eq).
    cbn [heap set_heap]. by rewrite list_insert_insert_eq.
  - rewrite <- effective_retmax_min. unfold search_params, effective_retmax, date_string.
    destruct (max_results <? 10000); repeat split;
      try (intros k H1 H2 H3 H4);
      repeat first [ apply lookup_insert_eq
                   | rewrite lookup_insert_ne by congruence ];
      reflexivity.
Qed.

Lemma getTotalResultsCount_run spin query timeout s s1 d :
  heap s !! parameters s = Some d ->
  wait_admission clock spin s = (Ok tt, s1) ->
  getTotalResultsCount clock transport spin query timeout s =
    let request :=
      request_of esearch (<["retmax" := PInt 1]> (<["term" := PStr query]> d))
                 "json" timeout in
    let s2 := requested (heap s ++ [req_params request]) request s1 in
    match transport (length (sent s)) request with
    | None => (Raised RequestException, s2)
    | Some response =>
        match raise_for_status response with
        | Some reason => (Raised (HTTPError reason), s2)
        | None =>
            match json response with
            | Some j => total_of (JsonPayload j) (logged clock s2)
            | None => (Raised JSONDecodeError, logged clock s2)
            end
        end
    end.
Proof.
  intros Hd Hw. unfold getTotalResultsCount, bind at 1, get_state.
  unfold bind at 1. rewrite (copy_run _ _ Hd).
  do 2 (unfold bind at 1; rewrite setitem_last).
  unfold bind at 1. rewrite (_get_last _ _ _ _ _ _ _ _ _ _ Hw).
  cbn zeta. fold esearch.
  destruct (transport _ _) as [response|]; [|reflexivity].
  destruct (raise_for_status response); [reflexivity|].
  cbn [String.eqb Ascii.eqb Bool.eqb].
  destruct (json response); reflexivity.
Qed.

(** X13: [getTotalResultsCount] makes one search for the query with
    ["retmax"] 1 on the default parameters, and returns the count of the
    answer; an answer without ["esearchresult"] or without ["count"] makes
    it raise [TypeError].  Either way the request is on the log. *)
Theorem total_count_of_one_search spin query timeout s s1 d response j :
  heap s !! parameters s = Some d ->
  wait_admission clock spin s = (Ok tt, s1) ->
  transport (length (sent s))
    (request_of esearch (<["retmax" := PInt 1]> (<["term" := PStr query]> d))
                "json" timeout) = Some response ->
  raise_for_status response = None ->
  json response = Some j ->
  let result := getTotalResultsCount clock transport spin query timeout s in
  fst result =
    match esearchresult j with
    | Some r => match count r with
                | Some total => Ok total
                | None => Raised TypeError
                end
    | None => Raised TypeError
    end /\
  sent (snd result) =
    sent s ++ [request_of esearch
                 (<["retmax" := PInt 1]> (<["term" := PStr query]> d)) "json" timeout] /\
  _requestsMade (snd result) = _requestsMade s1 ++ [clock (ticks s1)].
Proof.
  intros Hd Hw Ht Hok Hj. cbn zeta.
  rewrite (getTotalResultsCount_run _ _ _ _ _ _ Hd Hw). cbn zeta.
  rewrite Ht, Hok, Hj.
  pose proof (wait_admission_frame _ _ _ _ _ Hw) as Hs1.
  assert (sent s1 = sent s) as Hsent by (rewrite Hs1; reflexivity).
  unfold total_of.
  destruct (esearchresult j) as [r|]; [destruct (count r)|];
    (split; [reflexivity|]); cbn; by rewrite Hsent.
Qed.

(** X14: an answer that is a success but not a well-formed search result
    makes [_getArticleIds] raise after its one request, which is on the
    log all the same: [JSONDecodeError] for a body that is not JSON,
    [TypeError] when ["esearchresult"] or its ["count"] is missing, even if
    an id list is there. *)
Theorem malformed_search_result fuel spin query max_results timeout w s s1 d response :
  heap s !! parameters s = Some d ->
  wait_admission clock spin s = (Ok tt, s1) ->
  transport (length (sent s))
    (request_of esearch (search_params d query max_results w) "json" timeout)
    = Some response ->
  raise_for_status response = None ->
  match json response with
  | Some j => match esearchresult j with
              | Some r => count r = None
              | None => True
              end
  | None => True
  end ->
  let result :=
    _getArticleIds clock transport (S fuel) spin query max_results timeout w s in
  fst result =
    Raised (match json response with
            | Some _ => TypeError
            | None => JSONDecodeError
            end) /\
  sent (snd result) =
    sent s ++ [request_of esearch (search_params d query max_results w) "json" timeout] /\
  _requestsMade (snd result) = _requestsMade s1 ++ [clock (ticks s1)].
Proof.
  intros Hd Hw Ht Hok Hbad. cbn zeta.
  rewrite (_getArticleIds_run _ _ _ _ _ _ _ _ _ _ _ Hd Hw). cbn zeta.
  rewrite Ht, Hok.
  pose proof (wait_admission_frame _ _ _ _ _ Hw) as Hs1.
  assert (sent s1 = sent s) as Hsent by (rewrite Hs1; reflexivity).
  destruct (json response) as [j|]; [|split; [reflexivity|cbn; by rewrite Hsent]].
  unfold after_search, bind at 1, total_of.
  destruct (esearchresult j) as [r|];
    [rewrite Hbad|]; (split; [reflexivity|]); cbn; by rewrite Hsent.
Qed.

(** X15: how a fetch fails.  An error status makes [_getArticles] raise
    [HTTPError] and leaves the log as the admission check left it; a payload
    that does not parse makes it raise [ParseError] once the request is on
    the log.  In both cases the one request that went out carries the ids
    under ["id"] and asks for XML. *)
Theorem fetch_failures spin article_ids timeout s s1 d response :
  heap s !! parameters s = Some d ->
  wait_admission clock spin s = (Ok tt, s1) ->
  transport (length (sent s))
    (request_of efetch (<["id" := PList article_ids]> d) "xml" timeout)
    = Some response ->
  let result := _getArticles clock transport fromstring spin article_ids timeout s in
  sent (snd result) =
    sent s ++ [request_of efetch (<["id" := PList article_ids]> d) "xml" timeout] /\
  (forall reason,
     raise_for_status response = Some reason ->
     fst result = Raised (HTTPError reason) /\
     _requestsMade (snd result) = _requestsMade s1) /\
  (raise_for_status response = None ->
   fromstring (text response) = None ->
   fst result = Raised ParseError /\
   _requestsMade (snd result) = _requestsMade s1 ++ [clock (ticks s1)]).
Proof.
  intros Hd Hw Ht. cbn zeta.
  rewrite (_getArticles_run _ _ _ _ _ _ _ _ _ Hd Hw). cbn zeta.
  unfold fetch_params. rewrite Ht.
  pose proof (wait_admission_frame _ _ _ _ _ Hw) as Hs1.
  assert (sent s1 = sent s) as Hsent by (rewrite Hs1; reflexivity).
  split; [|split].
  - destruct (raise_for_status response); [cbn; by rewrite Hsent|].
    destruct (fromstring (text response)); cbn; by rewrite Hsent.
  - intros reason ->. split; reflexivity.
  - intros -> ->. split; reflexivity.
Qed.


(** ** Whole resolutions *)

Section Resolutions.

Hypothesis clock_advances : advancing clock.

Lemma after_search_year_split recur max_results w j r total s :
  esearchresult j = Some r ->
  count r = Some total ->
  1 <= effective_retmax max_results ->
  effective_retmax max_results < total ->
  min_year w <> max_year w ->
  float_overflow (max_year w - min_year w)
                 (total / effective_retmax max_results + 1) = false ->
  after_search recur max_results w (JsonPayload j) s =
    for_each (call_range recur (fun lo hi => mkWindow lo hi 1 12 1 31))
      (sub_ranges (min_year w) (max_year w)
                  (total / effective_retmax max_results + 1))
      []
      (set_stdout (stdout s ++ [window_line w "Entries to retrieve:" total]) s).
Proof.
  intros Hr Hc Hretmax Hgt Hne Hfit.
  unfold after_search, bind at 1, total_of. rewrite Hr, Hc.
  unfold ret at 1. unfold bind at 1, print_window, print, modify.
  destruct (total >? effective_retmax max_results) eqn:E; [|lia].
  unfold bind at 1, floordiv. cbn zeta.
  destruct (effective_retmax max_results =? 0) eqn:E0; [lia|].
  unfold ret at 1. apply Z.eqb_neq in Hne. rewrite Hne. cbn [negb].
  apply split_range_call_ranges; [|exact Hfit].
  pose proof (batch_count_ge_2 _ _ Hretmax Hgt). lia.
Qed.

(** A search that is answered within the retmax, on a good client. *)
Lemma resolve_within_retmax fuel spin query max_results timeout w s d total ids :
  good clock s ->
  heap s !! parameters s = Some d ->
  (Z.to_nat one_second < spin)%nat ->
  answers transport
    (request_of esearch (search_params d query max_results w) "json" timeout)
    total ids ->
  total <= effective_retmax max_results ->
  exists s',
    _getArticleIds clock transport (S fuel) spin query max_results timeout w s
      = (Ok ids, s') /\
    good clock s' /\ heap s' !! parameters s' = Some d.
Proof.
  intros Hs Hd Hspin Hans Hle.
  destruct (wait_admission_good_ends clock spin s clock_advances Hs Hspin) as [s1 Hw].
  pose proof (wait_admission_good _ _ _ _ _ clock_advances Hw Hs) as Hs1.
  pose proof (wait_admission_frame _ _ _ _ _ Hw) as Hf.
  destruct (Hans (length (sent s))) as (response & j & r & Ht & Hok & Hj & Hr & Hc & Hi).
  rewrite (_getArticleIds_run _ _ _ _ _ _ _ _ _ _ _ Hd Hw). cbn zeta.
  rewrite Ht, Hok, Hj, (after_search_return _ _ _ _ _ _ _ Hr Hc Hle), Hi.
  eexists. split; [reflexivity|]. split.
  - exact (good_logged_requested clock clock_advances _ _ _ Hs1).
  - cbn. rewrite Hf. cbn. by apply lookup_app_l_Some.
Qed.

Lemma resolve_ranges fuel spin query max_results timeout d
    (totals : Z -> Z -> Z) (ids : Z -> Z -> list string) l :
  (Z.to_nat one_second < spin)%nat ->
  (forall lo hi, In (lo, hi) l ->
     answers transport
       (request_of esearch
          (search_params d query max_results (mkWindow lo hi 1 12 1 31))
          "json" timeout)
       (totals lo hi) (ids lo hi) /\
     totals lo hi <= effective_retmax max_results) ->
  forall acc s,
    good clock s ->
    heap s !! parameters s = Some d ->
    exists s',
      for_each (call_range
                  (_getArticleIds clock transport (S fuel) spin query max_results timeout)
                  (fun lo hi => mkWindow lo hi 1 12 1 31))
               l acc s
        = (Ok (acc ++ flat_map (fun p => ids (fst p) (snd p)) l), s') /\
      good clock s' /\ heap s' !! parameters s' = Some d.
Proof.
  intros Hspin. induction l as [|[lo hi] l IH]; intros Hans acc s Hs Hd.
  - exists s. cbn. rewrite app_nil_r. auto.
  - destruct (Hans lo hi ltac:(by left)) as [Ha Hle].
    destruct (resolve_within_retmax fuel spin query max_results timeout
                (mkWindow lo hi 1 12 1 31) s d _ _ Hs Hd Hspin Ha Hle)
      as (s1 & Hrun & Hs1 & Hd1).
    destruct (IH (fun lo' hi' Hin => Hans lo' hi' (or_intror Hin))
                 (acc ++ ids lo hi) s1 Hs1 Hd1) as (s2 & Hrest & Hs2 & Hd2).
    exists s2. split; [|auto].
    cbn [for_each flat_map]. unfold bind at 1, call_range at 1, bind at 1.
    cbn [fst snd]. rewrite Hrun. unfold ret at 1. rewrite Hrest.
    by rewrite app_assoc.
Qed.

(** X16: a search over several years whose total exceeds the retmax, every
    sub-range of which is answered within the retmax, returns the id lists
    of the sub-ranges one after the other, in the order of the sub-ranges
    (ascending years, the call pinned to the last year at the end), the
    quotient of the year gap by the batch count fitting a float; the ids
    of the first answer are not part of the result. *)
Theorem split_concatenates_in_order fuel spin query max_results timeout w s d
    total first_ids (totals : Z -> Z -> Z) (ids : Z -> Z -> list string) :
  good clock s ->
  heap s !! parameters s = Some d ->
  (Z.to_nat one_second < spin)%nat ->
  1 <= max_results ->
  min_year w <> max_year w ->
  answers transport
    (request_of esearch (search_params d query max_results w) "json" timeout)
    total first_ids ->
  effective_retmax max_results < total ->
  float_overflow (max_year w - min_year w)
                 (total / effective_retmax max_results + 1) = false ->
  (forall lo hi,
     In (lo, hi) (sub_ranges (min_year w) (max_year w)
                             (total / effective_retmax max_results + 1)) ->
     answers transport
       (request_of esearch
          (search_params d query max_results (mkWindow lo hi 1 12 1 31))
          "json" timeout)
       (totals lo hi) (ids lo hi) /\
     totals lo hi <= effective_retmax max_results) ->
  fst (_getArticleIds clock transport (S (S fuel)) spin query max_results timeout w s)
  = Ok (flat_map (fun p => ids (fst p) (snd p))
          (sub_ranges (min_year w) (max_year w)
                      (total / effective_retmax max_results + 1))).
Proof.
  intros Hs Hd Hspin Hmax Hne Hroot Hgt Hfit Hsub.
  assert (1 <= effective_retmax max_results) as Hretmax
    by (unfold effective_retmax; destruct (max_results <? 10000); lia).
  destruct (wait_admission_good_ends clock spin s clock_advances Hs Hspin) as [s1 Hw].
  pose proof (wait_admission_good _ _ _ _ _ clock_advances Hw Hs) as Hs1.
  pose proof (wait_admission_frame _ _ _ _ _ Hw) as Hf.
  destruct (Hroot (length (sent s))) as (response & j & r & Ht & Hok & Hj & Hr & Hc & _).
  rewrite (_getArticleIds_run _ _ _ _ _ _ _ _ _ _ _ Hd Hw). cbn zeta.
  rewrite Ht, Hok, Hj,
    (after_search_year_split _ _ _ _ _ _ _ Hr Hc Hretmax Hgt Hne Hfit).
  match goal with
  | |- fst (for_each _ _ _ ?st) = _ =>
      destruct (resolve_ranges fuel spin query max_results timeout d totals ids _
                  Hspin Hsub [] st) as (s' & Hrun & _)
  end.
  - exact (good_logged_requested clock clock_advances _ _ _ Hs1).
  - cbn. rewrite Hf. cbn. apply lookup_app_l_Some. exact Hd.
  - rewrite Hrun. reflexivity.
Qed.

Lemma terminating_getArticles spin article_ids timeout :
  (Z.to_nat one_second < spin)%nat ->
  terminating clock
    (_getArticles clock transport fromstring spin article_ids timeout).
Proof.
  intros Hspin. unfold _getArticles.
  apply terminating_bind; [apply terminating_get_state|intros s0].
  apply terminating_bind; [apply terminating_copy|intros params].
  apply terminating_bind; [apply terminating_setitem|intros _].
  apply terminating_bind; [by apply terminating_get|intros response].
  apply terminating_bind; [|intros root; apply terminating_ret].
  destruct response as [j|t]; [apply terminating_raise|].
  destruct (fromstring t); [apply terminating_ret|apply terminating_raise].
Qed.

Lemma terminating_fetch_batches spin article_batches timeout :
  (Z.to_nat one_second < spin)%nat ->
  terminating clock
    (fetch_batches clock transport fromstring spin article_batches timeout).
Proof.
  intros Hspin. unfold fetch_batches. apply terminating_for_each.
  intros acc batch _.
  apply terminating_bind; [by apply terminating_getArticles|intros rs].
  apply terminating_ret.
Qed.

Lemma terminating_finished {A} (m : M A) s :
  terminating clock m -> good clock s -> finished (fst (m s)).
Proof. intros Hm Hs. apply (Hm s Hs). Qed.

(** X17: the public operations end, on a client whose ceiling is not
    negative, the clock advancing: [getTotalResultsCount],
    [get_publications_from_ids] and [batch_query] whatever their arguments,
    [query] and [query_publication_ids] when at least one result is asked
    for.  A recursion depth of 2001, one more than the years of the default
    window, is never exceeded. *)
Theorem public_operations_end fuel spin s :
  good clock s ->
  (2000 < fuel)%nat ->
  (Z.to_nat one_second < spin)%nat ->
  (forall q timeout,
     finished (fst (getTotalResultsCount clock transport spin q timeout s))) /\
  (forall article_ids timeout,
     finished (fst (get_publications_from_ids clock transport fromstring spin
                      article_ids timeout s))) /\
  (forall q batch_size timeout,
     finished (fst (batch_query clock transport fromstring fuel spin q batch_size
                      timeout s))) /\
  (forall q max_results timeout,
     1 <= max_results ->
     finished (fst (query clock transport fromstring fuel spin q max_results
                      timeout s)) /\
     finished (fst (query_publication_ids clock transport fuel spin q max_results
                      timeout s))).
Proof.
  intros Hs Hfuel Hspin.
  assert (forall q max_results timeout, 1 <= max_results ->
            terminating clock
              (_getArticleIds clock transport fuel spin q max_results timeout
                 default_window)) as Hids.
  { intros q max_results timeout Hmax.
    apply (terminating_getArticleIds clock transport clock_advances);
      auto; cbn; lia. }
  split; [|split; [|split]].
  - intros q timeout. apply terminating_finished; [|exact Hs].
    unfold getTotalResultsCount.
    apply terminating_bind; [apply terminating_get_state|intros s0].
    apply terminating_bind; [apply terminating_copy|intros params].
    do 2 (apply terminating_bind; [apply terminating_setitem|intros _]).
    apply terminating_bind; [by apply terminating_get|intros response].
    apply terminating_total_of.
  - intros article_ids timeout. apply terminating_finished; [|exact Hs].
    unfold get_publications_from_ids.
    apply terminating_bind; [by apply terminating_fetch_batches|intros rs].
    apply terminating_ret.
  - intros q batch_size timeout. apply terminating_finished; [|exact Hs].
    unfold batch_query, batch_query_ids.
    apply terminating_bind; [apply Hids; lia|intros ids].
    by apply terminating_fetch_batches.
  - intros q max_results timeout Hmax. split; (apply terminating_finished; [|exact Hs]).
    + unfold query.
      apply terminating_bind; [by apply Hids|intros ids].
      apply terminating_bind; [by apply terminating_fetch_batches|intros rs].
      apply terminating_ret.
    + unfold query_publication_ids. by apply Hids.
Qed.

(** X18: nothing of a search stays behind in the client: after
    [query_publication_ids], whose requests carried a query and a date
    window, the request of [getTotalResultsCount] is built from the default
    parameters alone, and holds no date bound unless the defaults do. *)
Theorem count_after_search_has_no_window fuel spin q max_results timeout q' timeout'
    s d :
  good clock s ->
  heap s !! parameters s = Some d ->
  (2000 < fuel)%nat ->
  (Z.to_nat one_second < spin)%nat ->
  1 <= max_results ->
  let s' := snd (query_publication_ids clock transport fuel spin q max_results
                   timeout s) in
  sent (snd (getTotalResultsCount clock transport spin q' timeout' s')) =
    sent s' ++ [request_of esearch
                  (<["retmax" := PInt 1]> (<["term" := PStr q']> d)) "json" timeout'].
Proof.
  intros Hs Hd Hfuel Hspin Hmax. cbn zeta. unfold query_publication_ids.
  set (m := _getArticleIds clock transport fuel spin q max_results timeout
              default_window).
  assert (good clock (snd (m s))) as Hs'.
  { apply (terminating_getArticleIds clock transport clock_advances);
      auto; cbn; lia. }
  destruct (preserves_defaults m s d) as [Hp Hd']; [|exact Hd|].
  { apply preserves_getArticleIds. }
  destruct (wait_admission_good_ends clock spin (snd (m s)) clock_advances Hs' Hspin)
    as [s1 Hw].
  pose proof (wait_admission_frame _ _ _ _ _ Hw) as Hf.
  rewrite (getTotalResultsCount_run _ _ _ _ _ _ Hd' Hw). cbn zeta.
  assert (sent s1 = sent (snd (m s))) as Hsent by (rewrite Hf; reflexivity).
  destruct (transport _ _) as [response|]; [|cbn; by rewrite Hsent].
  destruct (raise_for_status response); [cbn; by rewrite Hsent|].
  destruct (json response) as [j|]; [|cbn; by rewrite Hsent].
  unfold total_of.
  destruct (esearchresult j) as [r|]; [destruct (count r)|]; cbn; by rewrite Hsent.
Qed.

End Resolutions.


End MoreFacts.

(** ** Instances of the further properties *)

Lemma get_transport_failure_witness :
  let result := _get ex_clock ex_unreachable 1 esearch 0%nat "json" 10 ex_client in
  fst result = Raised RequestException /\
  _requestsMade (snd result) = _requestsMade ex_client /\
  ticks (snd result) = ticks ex_client /\
  sent (snd result) = sent ex_client ++ [request_of esearch ex_defaults "json" 10].
Proof.
  apply (get_transport_failure ex_clock ex_unreachable 1 esearch 0%nat "json" 10
           ex_client ex_client ex_defaults); reflexivity.
Defined.

Lemma get_writes_retmode_in_place_witness :
  let s' := snd (_get ex_clock (ex_constant 1 ["7"]) 1 esearch 0%nat "json" 10
                   ex_client) in
  heap s' !! 0%nat = Some (<["retmode" := PStr "json"]> ex_defaults) /\
  (forall r', r' <> 0%nat -> heap s' !! r' = heap ex_client !! r') /\
  parameters s' = parameters ex_client.
Proof.
  apply (get_writes_retmode_in_place ex_clock (ex_constant 1 ["7"]) 1 esearch 0%nat
           "json" 10 ex_client ex_client ex_defaults); reflexivity.
Defined.

Lemma negative_ceiling_never_admits_witness :
  fst (_get ex_clock (ex_constant 1 ["7"]) 1000 esearch 0%nat "json" 10
         ex_blocked_client) = StillWaiting /\
  sent (snd (_get ex_clock (ex_constant 1 ["7"]) 1000 esearch 0%nat "json" 10
               ex_blocked_client)) = sent ex_blocked_client.
Proof.
  apply (negative_ceiling_never_admits ex_clock (ex_constant 1 ["7"]) 1000 esearch
           0%nat "json" 10 ex_blocked_client).
  simpl. lia.
Defined.

Lemma admitted_at_first_check_witness :
  exists s1,
    wait_admission ex_clock 1 ex_client = (Ok tt, s1) /\
    ticks s1 = (ticks ex_client + length (_requestsMade ex_client))%nat /\
    sublist (_requestsMade s1) (_requestsMade ex_client).
Proof.
  apply (admitted_at_first_check ex_clock 0 ex_client). simpl. lia.
Defined.

Lemma get_wait_ends_witness :
  finished (fst (_get ex_slow_clock (ex_constant 1 ["7"]) (S (Z.to_nat one_second))
                   esearch 0%nat "json" 10 ex_client)) /\
  good ex_slow_clock
    (snd (_get ex_slow_clock (ex_constant 1 ["7"]) (S (Z.to_nat one_second))
            esearch 0%nat "json" 10 ex_client)).
Proof.
  apply (get_wait_ends ex_slow_clock (ex_constant 1 ["7"])).
  - intros n. unfold ex_slow_clock, one_second. lia.
  - split; [simpl; lia|constructor].
  - lia.
Defined.

Lemma exceededRateLimit_pruning_witness :
  sublist (_requestsMade (snd (_exceededRateLimit ex_clock ex_after_four)))
          (_requestsMade ex_after_four).
Proof.
  apply (exceededRateLimit_pruning ex_clock ex_after_four).
  intros n. unfold ex_clock. lia.
Defined.

Lemma split_of_narrow_span_witness :
  split_range ex_recur ex_year_window 2000 2005 10 [] ex_client =
    (first <- ex_recur (ex_year_window 2000 2000) ;;
     last <- ex_recur (ex_year_window 2005 2005) ;;
     ret (([] ++ first) ++ last)) ex_client.
Proof.
  apply (split_of_narrow_span ex_recur ex_year_window 2000 2005 10 [] ex_client).
  lia.
Defined.

Lemma split_coverage_witness :
  covered 2998 (sub_ranges 1000 3000 6) /\ ~ covered 2999 (sub_ranges 1000 3000 6).
Proof.
  split.
  - apply (split_coverage ex_recur ex_year_window 1000 3000 6 2998);
      [lia|lia|reflexivity|].
    left. vm_compute. split; discriminate.
  - intros H.
    apply (split_coverage ex_recur ex_year_window 1000 3000 6 2999) in H;
      [|lia|lia|reflexivity].
    destruct H as [[_ H]|H]; [|discriminate]. vm_compute in H. by apply H.
Defined.

Lemma upper_bound_searched_twice_witness :
  exists front a,
    a <= 3000 /\
    sub_ranges 1000 3000 2 = front ++ [(a, 3000); (3000, 3000)] /\
    forall article_ids s,
      split_range ex_recur ex_year_window 1000 3000 2 article_ids s =
        for_each (call_range ex_recur ex_year_window)
                 (front ++ [(a, 3000); (3000, 3000)]) article_ids s.
Proof.
  apply (upper_bound_searched_twice ex_recur ex_year_window 1000 3000 2);
    [lia|lia|reflexivity|reflexivity].
Defined.

Lemma split_overflow_raises_witness :
  split_range ex_recur ex_year_window 0 (10 ^ 400) 2 [] ex_client =
    (_ <- for_each (call_range ex_recur ex_year_window)
                   (loop_ranges 0 (10 ^ 400) 2) [] ;;
     raise OverflowError) ex_client /\
  forall ids,
    fst (split_range ex_recur ex_year_window 0 (10 ^ 400) 2 [] ex_client) <> Ok ids.
Proof.
  apply (split_overflow_raises ex_recur ex_year_window 0 (10 ^ 400) 2 [] ex_client).
  - lia.
  - vm_compute. reflexivity.
Defined.

Lemma split_stops_at_first_exception_witness :
  split_range ex_recur ex_year_window 1000 3000 2 [] ex_client
  = (Raised (HTTPError "502 Bad Gateway"), ex_client).
Proof.
  apply (split_stops_at_first_exception ex_recur ex_year_window 1000 3000 2 []
           ex_client [(1000, 2000)] (2001, 3000) [(3000, 3000)] ["7"] ex_client).
  - lia.
  - reflexivity.
  - reflexivity.
  - reflexivity.
Defined.

Lemma search_request_items_witness :
  exists s' d',
    search_request "q" 100 ex_year_2020 0%nat ex_client = (Ok tt, s') /\
    heap s' = <[0%nat := d']> (heap ex_client) /\
    d' !! "term" = Some (PStr "q") /\
    d' !! "retmax" = Some (PInt (Z.min 100 10000)) /\
    d' !! "mindate"
      = Some (PStr (str (min_year ex_year_2020) +:+ "/" +:+ str (min_month ex_year_2020)
                    +:+ "/" +:+ str (min_day ex_year_2020))) /\
    d' !! "maxdate"
      = Some (PStr (str (max_year ex_year_2020) +:+ "/" +:+ str (max_month ex_year_2020)
                    +:+ "/" +:+ str (max_day ex_year_2020))) /\
    forall k, k <> "term" -> k <> "retmax" -> k <> "mindate" -> k <> "maxdate" ->
              d' !! k = ex_defaults !! k.
Proof.
  apply (search_request_items "q" 100 ex_year_2020 0%nat ex_client ex_defaults).
  reflexivity.
Defined.

Lemma total_count_of_one_search_witness :
  let result := getTotalResultsCount ex_clock (ex_constant 42 ["7"]) 1 "q" 10 ex_client in
  fst result = Ok 42 /\
  sent (snd result) =
    sent ex_client
    ++ [request_of esearch (<["retmax" := PInt 1]> (<["term" := PStr "q"]> ex_defaults))
          "json" 10] /\
  _requestsMade (snd result) = _requestsMade ex_client ++ [ex_clock (ticks ex_client)].
Proof.
  apply (total_count_of_one_search ex_clock (ex_constant 42 ["7"]) 1 "q" 10
           ex_client ex_client ex_defaults (ex_search_response 42 ["7"])
           (mkJson (Some (mkESearchResult (Some 42) (Some ["7"])))));
    reflexivity.
Defined.

Lemma malformed_search_result_witness :
  let result := _getArticleIds ex_clock ex_not_json 1 1 "q" 100 10 default_window
                  ex_client in
  fst result = Raised JSONDecodeError /\
  sent (snd result) =
    sent ex_client
    ++ [request_of esearch (search_params ex_defaults "q" 100 default_window) "json" 10] /\
  _requestsMade (snd result) = _requestsMade ex_client ++ [ex_clock (ticks ex_client)].
Proof.
  apply (malformed_search_result ex_clock ex_not_json 0 1 "q" 100 10 default_window
           ex_client ex_client ex_defaults (mkResponse 200 "OK" None "<html/>"));
    first [exact I|reflexivity].
Defined.

Lemma fetch_failures_witness :
  let result := _getArticles ex_clock ex_not_json ex_no_xml 1 ["31"; "32"] 10 ex_client in
  sent (snd result) =
    sent ex_client
    ++ [request_of efetch (<["id" := PList ["31"; "32"]]> ex_defaults) "xml" 10] /\
  (forall reason,
     raise_for_status (mkResponse 200 "OK" None "<html/>") = Some reason ->
     fst result = Raised (HTTPError reason) /\
     _requestsMade (snd result) = _requestsMade ex_client) /\
  (raise_for_status (mkResponse 200 "OK" None "<html/>") = None ->
   ex_no_xml (text (mkResponse 200 "OK" None "<html/>")) = None ->
   fst result = Raised ParseError /\
   _requestsMade (snd result) = _requestsMade ex_client ++ [ex_clock (ticks ex_client)]).
Proof.
  apply (fetch_failures ex_clock ex_not_json ex_no_xml 1 ["31"; "32"] 10
           ex_client ex_client ex_defaults (mkResponse 200 "OK" None "<html/>"));
    reflexivity.
Defined.

Lemma split_concatenates_in_order_witness :
  fst (_getArticleIds ex_slow_clock (ex_crowded_root 15000) 2
         (S (Z.to_nat one_second)) "q" 10000 10 default_window ex_client)
  = Ok (flat_map (fun _ => ["7"])
          (sub_ranges (min_year default_window) (max_year default_window)
                      (15000 / effective_retmax 10000 + 1))).
Proof.
  apply (split_concatenates_in_order ex_slow_clock (ex_crowded_root 15000))
    with (d := ex_defaults) (total := 15000) (first_ids := ["1"; "2"])
         (totals := fun _ _ => 1) (ids := fun _ _ => ["7"]).
  - intros n. unfold ex_slow_clock, one_second. lia.
  - split; [simpl; lia|constructor].
  - reflexivity.
  - lia.
  - lia.
  - discriminate.
  - intros n.
    exists (ex_search_response 15000 ["1"; "2"]),
           (mkJson (Some (mkESearchResult (Some 15000) (Some ["1"; "2"])))),
           (mkESearchResult (Some 15000) (Some ["1"; "2"])).
    repeat split; vm_compute; reflexivity.
  - reflexivity.
  - vm_compute. reflexivity.
  - intros lo hi Hin. vm_compute in Hin.
    destruct Hin as [H|[H|[H|[]]]]; injection H as <- <-;
      (split; [|vm_compute; discriminate]); intros n;
      exists (ex_search_response 1 ["7"]),
             (mkJson (Some (mkESearchResult (Some 1) (Some ["7"])))),
             (mkESearchResult (Some 1) (Some ["7"]));
      repeat split; vm_compute; reflexivity.
Defined.

Lemma public_operations_end_witness :
  finished (fst (batch_query ex_slow_clock ex_fetch ex_parse 2001
                   (S (Z.to_nat one_second)) "q" 250 10 ex_client)).
Proof.
  destruct (public_operations_end ex_slow_clock ex_fetch ex_parse) with
    (fuel := 2001%nat) (spin := S (Z.to_nat one_second)) (s := ex_client)
    as (_ & _ & H & _).
  - intros n. unfold ex_slow_clock, one_second. lia.
  - split; [simpl; lia|constructor].
  - lia.
  - lia.
  - exact (H "q" 250%nat 10).
Defined.

Lemma count_after_search_has_no_window_witness :
  let s' := snd (query_publication_ids ex_slow_clock (ex_constant 5 ["7"]) 2001
                   (S (Z.to_nat one_second)) "q" 100 10 ex_client) in
  sent (snd (getTotalResultsCount ex_slow_clock (ex_constant 5 ["7"])
               (S (Z.to_nat one_second)) "other" 20 s')) =
    sent s' ++ [request_of esearch
                  (<["retmax" := PInt 1]> (<["term" := PStr "other"]> ex_defaults))
                  "json" 20].
Proof.
  apply (count_after_search_has_no_window ex_slow_clock (ex_constant 5 ["7"])).
  - intros n. unfold ex_slow_clock, one_second. lia.
  - split; [simpl; lia|constructor].
  - reflexivity.
  - lia.
  - lia.
  - lia.
Defined.
